(** * VoltZ backend: datasheet ingestion, embeddings and vector store

    A shallow embedding of the retrieval pipeline of the VoltZ backend
    ([backend/src/services/datasheet_ingestion.py], [embeddings.py] and
    [vector_db.py]) together with the properties stated about it.

    Python values are modelled as follows.
    - [int] is [Z] (unbounded, possibly negative: [rfind] answers [-1]).
    - [str] is a list of Unicode code points, each an [N].
    - [dict] with string keys is a [gmap string _].
    - An exception is the [inl] side of a sum; code that touches the
      outside world threads an explicit state.
    - Calls of the logger are left out. *)

From Stdlib Require Import ZArith List Lia Bool String Ascii.
From stdpp Require Import base option list gmap strings.

Local Open Scope Z_scope.

(* ===================================================================== *)
(** ** Python strings *)
(* ===================================================================== *)

Module PyStr.

(** A character is a Unicode code point. *)
Definition char : Type := N.
Definition str : Type := list char.

(** The code points of a literal written with 8-bit characters. *)
Definition py (s : string) : str :=
  List.map N_of_ascii (list_ascii_of_string s).

(** [len(s)] *)
Definition len (s : str) : Z := Z.of_nat (length s).

(** [c.isspace()] for one code point: the ASCII table of CPython
    ([_Py_ascii_whitespace]) and the Unicode white-space code points
    beyond it ([_PyUnicode_IsWhitespace]). *)
Definition isspace (c : char) : bool :=
  ((9 <=? c) && (c <=? 13) || (28 <=? c) && (c <=? 32)
   || (c =? 133) || (c =? 160) || (c =? 5760)
   || (8192 <=? c) && (c <=? 8202)
   || (c =? 8232) || (c =? 8233) || (c =? 8239) || (c =? 8287)
   || (c =? 12288))%N.

(** [s.lstrip()], [s.rstrip()] and [s.strip()] without argument. *)
Fixpoint lstrip (s : str) : str :=
  match s with
  | c :: s' => if isspace c then lstrip s' else s
  | [] => []
  end.

Definition rstrip (s : str) : str := rev (lstrip (rev s)).

Definition strip (s : str) : str := rstrip (lstrip s).

(** Truth value of a string: [bool(s)], false exactly for [""]. *)
Definition truthy (s : str) : bool :=
  match s with [] => false | _ :: _ => true end.

(** Index adjustment of slicing ([PySlice_AdjustIndices], step 1): a
    negative index counts from the end, and the result is clamped to
    [0 .. n]. *)
Definition adjust_index (n i : Z) : Z :=
  if i <? 0 then Z.max 0 (i + n) else Z.min i n.

(** Index adjustment of the [start] argument of the find methods
    ([ADJUST_INDICES]): as for a slice, except that a [start] beyond
    the end is left where it is. *)
Definition adjust_start (n i : Z) : Z :=
  if i <? 0 then Z.max 0 (i + n) else i.

(** [s[a:b]] *)
Definition slice (s : str) (a b : Z) : str :=
  let lo := adjust_index (len s) a in
  let hi := adjust_index (len s) b in
  take (Z.to_nat (hi - lo)) (drop (Z.to_nat lo) s).

(** [s[i:i+len(sub)] == sub] for an index inside the string. *)
Definition occurs_at (s sub : str) (i : Z) : bool :=
  bool_decide (take (length sub) (drop (Z.to_nat i) s) = sub).

(** Candidates [lo + n - 1], ..., [lo], highest first. *)
Fixpoint rfind_down (s sub : str) (lo : Z) (n : nat) : Z :=
  match n with
  | O => -1
  | S k =>
      if occurs_at s sub (lo + Z.of_nat k) then lo + Z.of_nat k
      else rfind_down s sub lo k
  end.

(** [s.rfind(sub, a, b)]: the highest index [i] with
    [a <= i] and [i + len(sub) <= b] where [sub] occurs, or [-1]. *)
Definition rfind (s sub : str) (a b : Z) : Z :=
  let lo := adjust_start (len s) a in
  let hi := adjust_index (len s) b in
  rfind_down s sub lo (Z.to_nat (hi - len sub - lo + 1)).

End PyStr.

(* ===================================================================== *)
(** ** Dictionaries of metadata *)
(* ===================================================================== *)

(** The values that the services store in metadata dictionaries. *)
Inductive py_value : Type :=
  | VInt (z : Z)
  | VStr (s : string)
  | VNone.

Abbreviation metadata := (gmap string py_value).

(* ===================================================================== *)
(** ** Chunker: [DatasheetIngestionService.create_text_chunks] *)
(* ===================================================================== *)

Module Chunker.
Import PyStr.

(** The chunking attributes of a [DatasheetIngestionService]. *)
Record DatasheetIngestionService : Type := {
  min_chunk_size : Z;
  max_chunk_size : Z;
  overlap_size : Z
}.

(** [DatasheetIngestionService.__init__] *)
Definition init : DatasheetIngestionService :=
  {| min_chunk_size := 1000; max_chunk_size := 2000; overlap_size := 200 |}.

(** The delimiters tried, in the order of the source:
    ['. ', '! ', '? ', '.\n', '!\n', '?\n']. *)
Definition sentence_patterns : list str :=
  [ [46; 32]; [33; 32]; [63; 32]; [46; 10]; [33; 10]; [63; 10] ]%N.

(** One pass of [for pattern in ...] over the running [sentence_end]. *)
Definition try_pattern (text : str) (search_start end_pos : Z)
    (sentence_end : Z) (pattern : str) : Z :=
  let pos := rfind text pattern search_start end_pos in
  if pos >? sentence_end then pos + len pattern else sentence_end.

Definition find_sentence_end (text : str) (search_start end_pos : Z) : Z :=
  fold_left (try_pattern text search_start end_pos) sentence_patterns (-1).

(** The end position of the chunk that starts at [start_pos]. *)
Definition chunk_end_pos (self : DatasheetIngestionService) (text : str)
    (start_pos : Z) : Z :=
  let end_pos := Z.min (start_pos + max_chunk_size self) (len text) in
  if end_pos <? len text then
    let search_start :=
      Z.max (start_pos + min_chunk_size self) (end_pos - 200) in
    let sentence_end := find_sentence_end text search_start end_pos in
    if sentence_end >? 0 then sentence_end else end_pos
  else end_pos.

(** [{**source_metadata, "chunk_index": ..., ...}] *)
Definition chunk_metadata (source_metadata : metadata)
    (chunk_index start_pos end_pos chunk_length total : Z) : metadata :=
  <["chunk_index" := VInt chunk_index]>
  (<["chunk_start" := VInt start_pos]>
  (<["chunk_end" := VInt end_pos]>
  (<["chunk_length" := VInt chunk_length]>
  (<["total_text_length" := VInt total]> source_metadata)))).

(** The local variables that live across iterations of the loop. *)
Record loop_state : Type := {
  chunks : list (str * metadata);
  start_pos : Z;
  chunk_index : Z
}.

(** The keep test of the loop body. *)
Definition keeps (self : DatasheetIngestionService) (text : str)
    (start_pos : Z) (chunk_text : str) : bool :=
  (len chunk_text >=? min_chunk_size self)
  || (start_pos + len chunk_text >=? len text).

(** The cursor for the next iteration. *)
Definition next_start_pos (self : DatasheetIngestionService)
    (start_pos end_pos : Z) : Z :=
  let next_start :=
    Z.max (start_pos + min_chunk_size self) (end_pos - overlap_size self) in
  if next_start <=? start_pos then start_pos + min_chunk_size self
  else next_start.

(** The body of [while start_pos < len(text)], up to the final [break]. *)
Definition loop_body (self : DatasheetIngestionService) (text : str)
    (source_metadata : metadata) (st : loop_state) : loop_state :=
  let end_pos := chunk_end_pos self text (start_pos st) in
  let chunk_text := strip (slice text (start_pos st) end_pos) in
  let next_start := next_start_pos self (start_pos st) end_pos in
  if keeps self text (start_pos st) chunk_text then
    {| chunks :=
         chunks st ++
         [(chunk_text,
           chunk_metadata source_metadata (chunk_index st) (start_pos st)
             end_pos (len chunk_text) (len text))];
       start_pos := next_start;
       chunk_index := chunk_index st + 1 |}
  else
    {| chunks := chunks st;
       start_pos := next_start;
       chunk_index := chunk_index st |}.

(** The [while] loop, one unit of fuel per iteration; [None] when the
    fuel runs out before the loop ends. *)
Fixpoint while_loop (fuel : nat) (self : DatasheetIngestionService)
    (text : str) (source_metadata : metadata) (st : loop_state)
    : option loop_state :=
  if start_pos st <? len text then
    match fuel with
    | O => None
    | S fuel' =>
        let st' := loop_body self text source_metadata st in
        if start_pos st' >=? len text then Some st'
        else while_loop fuel' self text source_metadata st'
    end
  else Some st.

(** The state at the head of each iteration the loop executes. *)
Fixpoint iterations (fuel : nat) (self : DatasheetIngestionService)
    (text : str) (source_metadata : metadata) (st : loop_state)
    : list loop_state :=
  if start_pos st <? len text then
    match fuel with
    | O => []
    | S fuel' =>
        let st' := loop_body self text source_metadata st in
        st :: (if start_pos st' >=? len text then []
               else iterations fuel' self text source_metadata st')
    end
  else [].

Definition initial_state : loop_state :=
  {| chunks := []; start_pos := 0; chunk_index := 0 |}.

(** [create_text_chunks(text, source_metadata)]; the loop is given
    [len(text)] units of fuel. *)
Definition create_text_chunks (self : DatasheetIngestionService)
    (text : str) (source_metadata : metadata)
    : option (list (str * metadata)) :=
  if negb (truthy (strip text)) then Some []
  else
    chunks <$>
      while_loop (length text) self text source_metadata initial_state.

(** The [(start, end)] windows the loop visits on [text]. *)
Definition windows (self : DatasheetIngestionService) (text : str)
    (source_metadata : metadata) : list (Z * Z) :=
  if negb (truthy (strip text)) then []
  else
    (fun st => (start_pos st, chunk_end_pos self text (start_pos st))) <$>
      iterations (length text) self text source_metadata initial_state.

(** The [(chunk_start, chunk_end)] pair a chunk's metadata records. *)
Definition chunk_span (c : str * metadata) : option (Z * Z) :=
  match snd c !! "chunk_start", snd c !! "chunk_end" with
  | Some (VInt s), Some (VInt e) => Some (s, e)
  | _, _ => None
  end.

(** Index [i] lies in the [[chunk_start, chunk_end)] span of a chunk. *)
Definition in_some_span (chunks : list (str * metadata)) (i : Z) : bool :=
  existsb
    (fun c =>
       match chunk_span c with
       | Some (s, e) => (s <=? i) && (i <? e)
       | None => false
       end)
    chunks.

(** [e] lies just after a delimiter that sits inside the window. *)
Definition after_delimiter (text : str) (search_start end_pos e : Z) : Prop :=
  exists pattern,
    pattern ∈ sentence_patterns /\
    search_start <= e - 2 /\ e <= end_pos /\
    occurs_at text pattern (e - 2) = true.

(** The running [sentence_end] is either untouched or lies just after
    a delimiter found inside the window. *)
Definition sentence_end_ok (text : str) (search_start end_pos e : Z) : Prop :=
  e = -1 \/ after_delimiter text search_start end_pos e.

(** The chunk an iteration emits when its keep test passes. *)
Definition emitted (self : DatasheetIngestionService) (text : str)
    (source_metadata : metadata) (st : loop_state) : str * metadata :=
  let end_pos := chunk_end_pos self text (start_pos st) in
  let chunk_text := strip (slice text (start_pos st) end_pos) in
  (chunk_text,
   chunk_metadata source_metadata (chunk_index st) (start_pos st)
     end_pos (len chunk_text) (len text)).

(** The keep test of an iteration. *)
Definition kept (self : DatasheetIngestionService) (text : str)
    (st : loop_state) : bool :=
  keeps self text (start_pos st)
    (strip (slice text (start_pos st)
              (chunk_end_pos self text (start_pos st)))).

(** [ceil(len(text) / 1000)] as a number of iterations. *)
Definition iteration_bound (text : str) : nat :=
  Z.to_nat ((len text + 999) / 1000).

End Chunker.


(* ===================================================================== *)
(** ** The libraries and the world outside the process *)
(* ===================================================================== *)

(** Everything the services reach through a library: the sentence
    encoder, the Chroma store, [uuid], [os], [re], [pdfminer] and
    [hashlib].  A call that has an effect or may observe one takes the
    [World] and hands it back; a call that may raise answers [inl]. *)
Class Env : Type := {
  World : Type;
  exn : Type;
  (* sentence_transformers, numpy *)
  SentenceTransformer : Type;
  ndarray : Type;
  float : Type;
  new_SentenceTransformer :
    string -> World -> (exn + SentenceTransformer) * World;
  encode :
    SentenceTransformer -> list PyStr.str -> World ->
    (exn + list ndarray) * World;
  tolist : ndarray -> list float;
  get_sentence_embedding_dimension :
    SentenceTransformer -> World -> (exn + Z) * World;
  (* chromadb *)
  Client : Type;
  Collection : Type;
  PersistentClient : string -> World -> (exn + Client) * World;
  client_get_collection :
    Client -> string -> World -> (exn + Collection) * World;
  client_create_collection :
    Client -> string -> World -> (exn + Collection) * World;
  (* [collection.add], once the documents are embedded: the store
     receives the documents, the metadata, the ids and the embeddings *)
  collection_add :
    Collection -> list PyStr.str -> list metadata -> list string ->
    list (list float) -> World -> (exn + unit) * World;
  (* uuid: [str(uuid.uuid4())] *)
  uuid4 : World -> string * World;
  (* os *)
  makedirs : string -> World -> (exn + unit) * World;
  path_exists : string -> World -> bool;
  basename : string -> string;
  (* re: [re.sub(pattern, repl, text)], and with [re.IGNORECASE] *)
  re_sub : string -> PyStr.str -> PyStr.str -> PyStr.str;
  re_sub_ignorecase : string -> PyStr.str -> PyStr.str -> PyStr.str;
  (* pdfminer.high_level *)
  extract_text : string -> World -> (exn + PyStr.str) * World;
  (* hashlib over the bytes of a file: the hex digest *)
  sha256_hexdigest : string -> World -> (exn + string) * World
}.

(* ===================================================================== *)
(** ** Exceptions and state *)
(* ===================================================================== *)

Module Py.

Section Monad.
Context `{Env}.

(** What a call may raise: a [ValueError] of the services' own, an
    [IndexError] of a subscript, or what a library raised. *)
Inductive error : Type :=
  | ValueError (msg : string)
  | IndexError
  | Raised (e : exn).

(** A computation over a state [S] that returns an [A] or raises. *)
Definition M (S A : Type) : Type := S -> (error + A) * S.

Definition ret {S A} (a : A) : M S A := fun s => (inr a, s).

Definition raise {S A} (e : error) : M S A := fun s => (inl e, s).

Definition bind {S A B} (c : M S A) (k : A -> M S B) : M S B :=
  fun s =>
    match c s with
    | (inr a, s') => k a s'
    | (inl e, s') => (inl e, s')
    end.

(** [try: c  except Exception: handler] *)
Definition try_except {S A} (c : M S A) (handler : error -> M S A) : M S A :=
  fun s =>
    match c s with
    | (inr a, s') => (inr a, s')
    | (inl e, s') => handler e s'
    end.

(** A library call on the world inside a state that holds more. *)
Definition call {S A} (get : S -> World) (set : World -> S -> S)
    (f : World -> (exn + A) * World) : M S A :=
  fun s =>
    match f (get s) with
    | (inr a, w) => (inr a, set w s)
    | (inl e, w) => (inl (Raised e), set w s)
    end.

(** An outcome that is a value or an exception of a library. *)
Definition from_library {A} (r : error + A) : Prop :=
  match r with
  | inr _ | inl (Raised _) => True
  | inl (ValueError _) | inl IndexError => False
  end.

End Monad.

End Py.

Declare Scope py_scope.
Delimit Scope py_scope with py.
Notation "'let*' x := c 'in' k" := (Py.bind c (fun x => k))
  (at level 10, x pattern, c at level 100, k at level 200) : py_scope.

(** The messages of the services' own errors, under the names the
    specification gives them. *)
Definition EmptyInput `{Env} : Py.error := Py.ValueError "Text cannot be empty".
Definition AllInputsEmpty `{Env} : Py.error :=
  Py.ValueError "All texts are empty".
Definition LengthMismatch `{Env} : Py.error :=
  Py.ValueError "Number of chunks must match number of metadata entries".

(* ===================================================================== *)
(** ** [EmbeddingService] *)
(* ===================================================================== *)

Module Embeddings.
Import PyStr Py.
Local Open Scope py_scope.

Section Service.
Context `{Env}.

Record EmbeddingService : Type := {
  model_name : string;
  _model : option SentenceTransformer
}.

(** [EmbeddingService.__init__] *)
Definition init (model_name : string) : EmbeddingService :=
  {| model_name := model_name; _model := None |}.

Definition default_model_name : string := "all-MiniLM-L6-v2".

(** The state a method runs in: [self] and the world. *)
Definition state : Type := EmbeddingService * World.

Definition lib {A} (f : World -> (exn + A) * World) : M state A :=
  call snd (fun w s => (fst s, w)) f.

(** [_get_model], as one thread runs it: the second test under the
    lock sees what the first one saw. *)
Definition _get_model : M state SentenceTransformer :=
  fun '(self, w) =>
    match _model self with
    | Some model => (inr model, (self, w))
    | None =>
        match new_SentenceTransformer (model_name self) w with
        | (inr model, w') =>
            (inr model,
             ({| model_name := model_name self; _model := Some model |}, w'))
        | (inl e, w') => (inl (Raised e), (self, w'))
        end
    end.

(** [generate_embedding(text)] *)
Definition generate_embedding (text : str) : M state (list float) :=
  if negb (truthy (strip text)) then raise EmptyInput
  else
    let* model := _get_model in
    let* rows := lib (encode model [text]) in
    match rows with
    | embedding :: _ => ret (tolist embedding)
    | [] => raise IndexError
    end.

(** [generate_embeddings(texts)] *)
Definition generate_embeddings (texts : list str)
    : M state (list (list float)) :=
  match texts with
  | [] => ret []
  | _ :: _ =>
      let valid_texts := List.filter (fun text => truthy (strip text)) texts in
      match valid_texts with
      | [] => raise AllInputsEmpty
      | _ :: _ =>
          let* model := _get_model in
          let* embeddings := lib (encode model valid_texts) in
          ret (List.map tolist embeddings)
      end
  end.

(** [get_embedding_dimension()] *)
Definition get_embedding_dimension : M state Z :=
  let* model := _get_model in
  lib (get_sentence_embedding_dimension model).

(** A text is blank when trimming leaves nothing. *)
Definition blank (text : str) : Prop := strip text = [].

(** The encoder's side of the contract: one row per text it is given. *)
Definition one_row_per_text : Prop :=
  forall model texts w rows w',
    encode model texts w = (inr rows, w') -> length rows = length texts.

End Service.
End Embeddings.

(* ===================================================================== *)
(** ** [VectorDBService] *)
(* ===================================================================== *)

Module VectorDB.
Import PyStr Py.
Local Open Scope py_scope.

Section Service.
Context `{Env}.

Record VectorDBService : Type := {
  persist_directory : string;
  _client : option Client;
  _collection : option Collection;
  collection_name : string
}.

(** The module-level singletons and the world. *)
Record process : Type := {
  world : World;
  _embedding_service : option Embeddings.EmbeddingService;
  _vector_db_service : option VectorDBService
}.

Definition set_world (w : World) (p : process) : process :=
  {| world := w;
     _embedding_service := _embedding_service p;
     _vector_db_service := _vector_db_service p |}.

(** The state a method runs in: [self] and the process. *)
Definition state : Type := VectorDBService * process.

Definition lib {A} (f : World -> (exn + A) * World) : M state A :=
  call (fun s => world (snd s)) (fun w s => (fst s, set_world w (snd s))) f.

(** [VectorDBService.__init__]: the fields, then [os.makedirs]. *)
Definition init (persist_directory : string) : M process VectorDBService :=
  let* _ := call world set_world (makedirs persist_directory) in
  ret {| persist_directory := persist_directory;
         _client := None;
         _collection := None;
         collection_name := "component_datasheets" |}.

(** [embeddings.get_embedding_service()] *)
Definition get_embedding_service : M state Embeddings.EmbeddingService :=
  fun '(self, p) =>
    match _embedding_service p with
    | Some service => (inr service, (self, p))
    | None =>
        let service := Embeddings.init Embeddings.default_model_name in
        (inr service,
         (self,
          {| world := world p;
             _embedding_service := Some service;
             _vector_db_service := _vector_db_service p |}))
    end.

(** [_get_client()] *)
Definition _get_client : M state Client :=
  fun '(self, p) =>
    match _client self with
    | Some client => (inr client, (self, p))
    | None =>
        match PersistentClient (persist_directory self) (world p) with
        | (inr client, w) =>
            (inr client,
             ({| persist_directory := persist_directory self;
                 _client := Some client;
                 _collection := _collection self;
                 collection_name := collection_name self |},
              set_world w p))
        | (inl e, w) => (inl (Raised e), (self, set_world w p))
        end
    end.

Definition set_collection (collection : Collection) : M state unit :=
  fun '(self, p) =>
    (inr tt,
     ({| persist_directory := persist_directory self;
         _client := _client self;
         _collection := Some collection;
         collection_name := collection_name self |}, p)).

(** [_get_collection()]: the cached collection, else the one the
    client has under the name, else a new one.  The collection is
    obtained with a [CustomEmbeddingFunction()] as its embedding
    function; what the calls of that function do is
    [CustomEmbeddingFunction] below. *)
Definition _get_collection : M state Collection :=
  fun s =>
    match _collection (fst s) with
    | Some collection => ret collection s
    | None =>
        (let* client := _get_client in
         let* _ := get_embedding_service in
         let* collection :=
           try_except
             (fun s' =>
                lib (client_get_collection client (collection_name (fst s')))
                  s')
             (fun _ s' =>
                lib (client_create_collection client
                       (collection_name (fst s'))) s') in
         let* _ := set_collection collection in
         ret collection) s
    end.

(** A method call on the embedding service of the process: the call
    runs on the object the global names, and what it did to the
    object stays there. *)
Definition on_embedding_service {A} (method : M Embeddings.state A)
    : M state A :=
  let* service := get_embedding_service in
  fun '(self, p) =>
    match method (service, world p) with
    | (r, (service', w)) =>
        (r, (self,
             {| world := w;
                _embedding_service := Some service';
                _vector_db_service := _vector_db_service p |}))
    end.

(** [CustomEmbeddingFunction.__call__(input)].  The function that
    [_get_collection] binds to the collection holds the service that
    [get_embedding_service] answered there; the global names that
    same object ever after, so the call runs on the service of the
    process. *)
Definition CustomEmbeddingFunction (input : list str)
    : M state (list (list float)) :=
  on_embedding_service (Embeddings.generate_embeddings input).

(** [collection.add(documents, metadatas, ids)] on the collection of
    the service: Chroma has the function bound to the collection
    embed the documents, and stores them with their embeddings.  An
    exception of the function is raised by [add] as it is. *)
Definition collection_add_documents (collection : Collection)
    (documents : list str) (metadatas : list metadata) (ids : list string)
    : M state unit :=
  let* embeddings := CustomEmbeddingFunction documents in
  lib (collection_add collection documents metadatas ids embeddings).

(** [[str(uuid.uuid4()) for _ in chunks]] *)
Fixpoint fresh_ids {A} (chunks : list A) (w : World) : list string * World :=
  match chunks with
  | [] => ([], w)
  | _ :: chunks' =>
      let (id, w') := uuid4 w in
      let (ids, w'') := fresh_ids chunks' w' in
      (id :: ids, w'')
  end.

(** [add_document_chunks(chunks, metadata_list)] *)
Definition add_document_chunks (chunks : list str)
    (metadata_list : list metadata) : M state (list string) :=
  if negb (length chunks =? length metadata_list)%nat then raise LengthMismatch
  else
    let* collection := _get_collection in
    let* doc_ids := lib (fun w => let (ids, w') := fresh_ids chunks w in
                                  (inr ids, w')) in
    let* _ :=
      collection_add_documents collection chunks metadata_list doc_ids in
    ret doc_ids.

(** [vector_db.get_vector_db_service()] *)
Definition get_vector_db_service : M process VectorDBService :=
  fun p =>
    match _vector_db_service p with
    | Some service => ret service p
    | None =>
        (let* service := init "./data/chroma_db" in
         fun p' =>
           ret service
             {| world := world p';
                _embedding_service := _embedding_service p';
                _vector_db_service := Some service |}) p
    end.

(** A method call on the singleton: the call runs on the object the
    global names, and what it did to the object stays there. *)
Definition on_vector_db_service {A} (method : M state A) : M process A :=
  let* service := get_vector_db_service in
  fun p =>
    match method (service, p) with
    | (r, (service', p')) =>
        (r, {| world := world p';
               _embedding_service := _embedding_service p';
               _vector_db_service := Some service' |})
    end.

(** The generator of ids never answers the same id twice. *)
Definition uuid4_never_repeats : Prop :=
  forall w i j, i <> j ->
    fst (uuid4 (Nat.iter i (fun w => snd (uuid4 w)) w))
    <> fst (uuid4 (Nat.iter j (fun w => snd (uuid4 w)) w)).

End Service.
End VectorDB.

(* ===================================================================== *)
(** ** [DatasheetIngestionService]: ingestion *)
(* ===================================================================== *)

Module Ingestion.
Import PyStr Py Chunker.
Local Open Scope py_scope.

Section Service.
Context `{Env}.

Abbreviation process := VectorDB.process.

Definition lib {A} (f : World -> (exn + A) * World) : M process A :=
  call VectorDB.world VectorDB.set_world f.

(** [extract_text_from_pdf(pdf_path)] *)
Definition extract_text_from_pdf (pdf_path : string) : M process str :=
  let* text := lib (extract_text pdf_path) in
  if negb (truthy (strip text)) then ret [] else ret text.

(** [clean_text(text)] *)
Definition clean_text (text : str) : str :=
  let text := re_sub "\s+" (py " ") text in
  let text := re_sub_ignorecase "Page \d+.*?\n" [] text in
  let text := re_sub "www\.[^\s]+" [] text in
  let text :=
    re_sub "[^\w\s\.\,\;\:\!\?\-\(\)\[\]\/\+\=\<\>\@\#\$\%\^\&\*]" (py " ")
      text in
  strip (re_sub "\s+" (py " ") text).

(** [_calculate_file_hash(file_path)] *)
Definition _calculate_file_hash (file_path : string) : M process string :=
  try_except (lib (sha256_hexdigest file_path)) (fun _ => ret "unknown").

(** [d.get(key, default)] *)
Definition dict_get (d : metadata) (key : string) (default : py_value)
    : py_value :=
  match d !! key with Some v => v | None => default end.

Definition source_metadata_of (pdf_path : string) (component_info : metadata)
    (file_hash : string) : metadata :=
  <["source_file" := VStr (basename pdf_path)]>
  (<["source_path" := VStr pdf_path]>
  (<["mpn" := dict_get component_info "mpn" (VStr "unknown")]>
  (<["manufacturer" :=
       dict_get component_info "manufacturer" (VStr "unknown")]>
  (<["category" := dict_get component_info "category" (VStr "unknown")]>
  (<["description" := dict_get component_info "description" (VStr "")]>
  (<["datasheet_url" := dict_get component_info "datasheet_url" (VStr "")]>
  (<["ingestion_timestamp" :=
       dict_get component_info "timestamp" (VStr "")]>
  (<["file_hash" := VStr file_hash]> ∅)))))))).

(** The part of [ingest_datasheet] that follows the chunking. *)
Definition store_chunks (chunks_with_metadata : list (str * metadata))
    : M process (list string) :=
  match chunks_with_metadata with
  | [] => ret []
  | _ :: _ =>
      let chunks := List.map fst chunks_with_metadata in
      let metadata_list := List.map snd chunks_with_metadata in
      VectorDB.on_vector_db_service
        (VectorDB.add_document_chunks chunks metadata_list)
  end.

(** [ingest_datasheet(pdf_path, component_info)].  The outer [option]
    is [None] when the chunker's loop does not come to an end; the
    [except] clause logs and raises again. *)
Definition ingest_datasheet (self : DatasheetIngestionService)
    (pdf_path : string) (component_info : metadata) (p : process)
    : option ((error + list string) * process) :=
  match extract_text_from_pdf pdf_path p with
  | (inl e, p1) => Some (inl e, p1)
  | (inr [], p1) => Some (inr [], p1)
  | (inr raw_text, p1) =>
      let cleaned_text := clean_text raw_text in
      match _calculate_file_hash pdf_path p1 with
      | (inl e, p2) => Some (inl e, p2)
      | (inr file_hash, p2) =>
          let source_metadata :=
            source_metadata_of pdf_path component_info file_hash in
          match create_text_chunks self cleaned_text source_metadata with
          | None => None
          | Some chunks_with_metadata =>
              Some (store_chunks chunks_with_metadata p2)
          end
      end
  end.

(** One entry of [datasheet_configs]: what [config.get("pdf_path")]
    and [config.get("component_info", {})] answer. *)
Record config : Type := {
  pdf_path : option string;
  component_info : metadata
}.

(** The body of [for config in datasheet_configs]: the ids stored
    under the path, and the process afterwards.  [not pdf_path] holds
    for [None] and for the empty string. *)
Definition ingest_config (self : DatasheetIngestionService) (c : config)
    (p : process) : option (list string * process) :=
  match pdf_path c with
  | None => Some ([], p)
  | Some path =>
      if bool_decide (path = "") || negb (path_exists path (VectorDB.world p))
      then Some ([], p)
      else
        match ingest_datasheet self path (component_info c) p with
        | None => None
        | Some (inr doc_ids, p') => Some (doc_ids, p')
        | Some (inl _, p') => Some ([], p')
        end
  end.

(** [batch_ingest_datasheets(datasheet_configs)], from the state of
    [results] before the configs still to come. *)
Fixpoint batch_loop (self : DatasheetIngestionService)
    (datasheet_configs : list config)
    (results : gmap (option string) (list string)) (p : process)
    : option (gmap (option string) (list string) * process) :=
  match datasheet_configs with
  | [] => Some (results, p)
  | c :: rest =>
      match ingest_config self c p with
      | None => None
      | Some (doc_ids, p') =>
          batch_loop self rest (<[pdf_path c := doc_ids]> results) p'
      end
  end.

Definition batch_ingest_datasheets (self : DatasheetIngestionService)
    (datasheet_configs : list config) (p : process)
    : option (gmap (option string) (list string) * process) :=
  batch_loop self datasheet_configs ∅ p.



End Service.
End Ingestion.

(* ===================================================================== *)
(** ** Concrete inputs *)
(* ===================================================================== *)

Module Inputs.
Import PyStr.

(** ["Hi."] *)
Definition greeting : str := py "Hi.".

(** ["a "]: one letter and a trailing blank. *)
Definition padded_letter : str := py "a ".

(** 1000 letters and a trailing blank. *)
Definition padded_text : str := replicate 1000 97%N ++ py " ".

(** 3000 characters: ten letters in the middle of 2000 blanks, then
    1000 letters. *)
Definition gap_text : str :=
  replicate 1100 32%N ++ replicate 10 97%N ++ replicate 890 32%N
  ++ replicate 1000 98%N.

(** 3000 characters without white space except in [". ! "], which
    stands at index 1900. *)
Definition adjacent_text : str :=
  replicate 1900 97%N ++ py ". ! " ++ replicate 1096 97%N.

(** The text of the repository's own test: 150 times
    ["This is a test sentence. "]. *)
Definition test_text : str :=
  concat (replicate 150 (py "This is a test sentence. ")).

End Inputs.

(* ===================================================================== *)
(** ** [EmbeddingService._get_model] run by several threads *)
(* ===================================================================== *)

(** The statements of [_get_model] as atomic steps of threads that
    share one [EmbeddingService].  A step is one read or write of
    [self._model], one acquisition or release of [self._lock], or the
    call of the constructor; the interpreter's lock makes each of them
    atomic, and any interleaving of the steps of the threads may
    happen. *)
Module LazyInit.

Section Threads.
Context `{Env}.

(** Where a thread stands in [_get_model]. *)
Inductive pc : Type :=
  | AtTest              (* if self._model is None: *)
  | AtAcquire           (* with self._lock: *)
  | AtTestLocked        (* if self._model is None:, the lock held *)
  | AtConstruct         (* SentenceTransformer(self.model_name) *)
  | AtAssign (model : SentenceTransformer)   (* self._model = ... *)
  | AtRelease           (* the end of the with block *)
  | AtReleaseRaising (e : exn)   (* the with block left by the exception *)
  | AtReturn            (* return self._model *)
  | Returned (result : option SentenceTransformer)
  | Failed (e : exn).

(** The service the threads share, the world, and the threads.
    [_lock] names the thread inside the [with] block; [calls] counts
    the calls of the constructor, and [constructed] lists, latest
    first, the models it has returned. *)
Record system : Type := {
  model_name : string;
  _model : option SentenceTransformer;
  _lock : option nat;
  world : World;
  calls : nat;
  constructed : list SentenceTransformer;
  threads : list pc
}.

(** [n] threads about to call [_get_model] on a new service. *)
Definition initial (name : string) (n : nat) (w : World) : system :=
  {| model_name := name; _model := None; _lock := None; world := w;
     calls := 0; constructed := []; threads := replicate n AtTest |}.

(** Thread [i] moves to [c]. *)
Definition goto (i : nat) (c : pc) (s : system) : system :=
  {| model_name := model_name s; _model := _model s; _lock := _lock s;
     world := world s; calls := calls s; constructed := constructed s;
     threads := <[i := c]> (threads s) |}.

Definition set_lock (l : option nat) (s : system) : system :=
  {| model_name := model_name s; _model := _model s; _lock := l;
     world := world s; calls := calls s; constructed := constructed s;
     threads := threads s |}.

Definition set_model (model : SentenceTransformer) (s : system) : system :=
  {| model_name := model_name s; _model := Some model; _lock := _lock s;
     world := world s; calls := calls s; constructed := constructed s;
     threads := threads s |}.

Definition after_construction (w : World)
    (made : option SentenceTransformer) (s : system) : system :=
  {| model_name := model_name s; _model := _model s; _lock := _lock s;
     world := w;
     calls := S (calls s);
     constructed :=
       match made with
       | Some model => model :: constructed s
       | None => constructed s
       end;
     threads := threads s |}.

(** The next step of thread [i], if it has one: a thread that waits
    for the lock, or that is done, has none. *)
Definition step_thread (i : nat) (s : system) : option system :=
  match threads s !! i with
  | Some AtTest =>
      Some (goto i (match _model s with
                    | None => AtAcquire
                    | Some _ => AtReturn
                    end) s)
  | Some AtAcquire =>
      match _lock s with
      | None => Some (goto i AtTestLocked (set_lock (Some i) s))
      | Some _ => None
      end
  | Some AtTestLocked =>
      Some (goto i (match _model s with
                    | None => AtConstruct
                    | Some _ => AtRelease
                    end) s)
  | Some AtConstruct =>
      match new_SentenceTransformer (model_name s) (world s) with
      | (inr model, w) =>
          Some (goto i (AtAssign model) (after_construction w (Some model) s))
      | (inl e, w) =>
          Some (goto i (AtReleaseRaising e) (after_construction w None s))
      end
  | Some (AtAssign model) => Some (goto i AtRelease (set_model model s))
  | Some AtRelease => Some (goto i AtReturn (set_lock None s))
  | Some (AtReleaseRaising e) => Some (goto i (Failed e) (set_lock None s))
  | Some AtReturn => Some (goto i (Returned (_model s)) s)
  | Some (Returned _) | Some (Failed _) | None => None
  end.

(** One step of the system: some thread takes its next step. *)
Definition step (s s' : system) : Prop :=
  exists i, step_thread i s = Some s'.

(** The states the threads can bring the system to. *)
Definition reachable (name : string) (n : nat) (w : World) (s : system)
    : Prop :=
  rtc step (initial name n w) s.

(** The threads step in the order a schedule names them; [None] when
    the schedule names a thread that has no step to take. *)
Fixpoint run_schedule (schedule : list nat) (s : system) : option system :=
  match schedule with
  | [] => Some s
  | i :: schedule' =>
      match step_thread i s with
      | Some s' => run_schedule schedule' s'
      | None => None
      end
  end.

(** The places inside the [with] block. *)
Definition inside (c : pc) : Prop :=
  match c with
  | AtTestLocked | AtConstruct | AtAssign _ | AtRelease
  | AtReleaseRaising _ => True
  | AtTest | AtAcquire | AtReturn | Returned _ | Failed _ => False
  end.

(** The places a thread reaches only once [self._model] is set. *)
Definition past_setup (c : pc) : Prop :=
  match c with
  | AtRelease | AtReturn | Returned _ => True
  | _ => False
  end.

Definition assigning (c : pc) : Prop :=
  match c with AtAssign _ => True | _ => False end.

(** What holds in every state the threads can reach. *)
Record invariant (s : system) : Prop := {
  (* the thread inside the with block is the one the lock names *)
  inv_lock : forall i c,
    threads s !! i = Some c -> (inside c <-> _lock s = Some i);
  (* before the model is set: nobody is past the setup, and a model
     was constructed only if a thread is about to assign it *)
  inv_unset : _model s = None ->
    (forall i c, threads s !! i = Some c -> ~ past_setup c) /\
    ((constructed s = [] /\
      forall i c, threads s !! i = Some c -> ~ assigning c)
     \/ exists i model,
          threads s !! i = Some (AtAssign model) /\
          constructed s = [model]);
  (* once the model is set: it is the one model ever constructed,
     nobody constructs or assigns, and who returned, returned it *)
  inv_set : forall model, _model s = Some model ->
    constructed s = [model] /\
    forall i c, threads s !! i = Some c ->
      c <> AtConstruct /\ ~ assigning c /\
      forall r, c = Returned r -> r = Some model
}.

End Threads.
End LazyInit.

(* ===================================================================== *)
(** ** A small world to run the services in *)
(* ===================================================================== *)

Module TestEnv.
Import PyStr.

(** What this world remembers: how many documents were opened, how
    many ids were handed out, and what was added to the store. *)
Record world : Type := {
  opened : nat;
  handed_out : nat;
  stored : list (string * str)
}.

Definition start : world :=
  {| opened := 0; handed_out := 0; stored := [] |}.

(** The id number [n]: the letter [u] and a digit or a later
    character. *)
Definition id_of (n : nat) : string :=
  String "u" (String (ascii_of_nat (48 + n)) EmptyString).

(** Every library call succeeds, except that the first document that
    is opened cannot be read and that ["missing.pdf"] does not exist.
    Every document reads ["Hi."]; the encoder answers the length of
    each text. *)
Definition env : Env := {|
  World := world;
  exn := string;
  SentenceTransformer := string;
  ndarray := list Z;
  float := Z;
  new_SentenceTransformer := fun name w => (inr name, w);
  encode := fun _ texts w => (inr (List.map (fun t => [len t]) texts), w);
  tolist := fun row => row;
  get_sentence_embedding_dimension := fun _ w => (inr 1, w);
  Client := unit;
  Collection := unit;
  PersistentClient := fun _ w => (inr tt, w);
  client_get_collection := fun _ _ w => (inr tt, w);
  client_create_collection := fun _ _ w => (inr tt, w);
  collection_add := fun _ chunks _ ids _ w =>
    (inr tt,
     {| opened := opened w; handed_out := handed_out w;
        stored := stored w ++ zip ids chunks |});
  uuid4 := fun w =>
    (id_of (handed_out w),
     {| opened := opened w; handed_out := S (handed_out w);
        stored := stored w |});
  makedirs := fun _ w => (inr tt, w);
  path_exists := fun path _ => negb (bool_decide (path = "missing.pdf"));
  basename := fun path => path;
  re_sub := fun _ _ text => text;
  re_sub_ignorecase := fun _ _ text => text;
  extract_text := fun _ w =>
    (match opened w with
     | O => inl "cannot read"
     | S _ => inr (py "Hi.")
     end,
     {| opened := S (opened w); handed_out := handed_out w;
        stored := stored w |});
  sha256_hexdigest := fun _ w => (inr "00", w)
|}.

(** The process before anything ran. *)
Definition fresh_process : @VectorDB.process env :=
  @VectorDB.Build_process env start None None.

(** A config that names ["a.pdf"], and one that names a file that
    does not exist. *)
Definition a_pdf : Ingestion.config :=
  {| Ingestion.pdf_path := Some "a.pdf"; Ingestion.component_info := ∅ |}.

Definition missing_pdf : Ingestion.config :=
  {| Ingestion.pdf_path := Some "missing.pdf";
     Ingestion.component_info := ∅ |}.

Definition four_configs : list Ingestion.config :=
  [ a_pdf; missing_pdf;
    {| Ingestion.pdf_path := Some "b.pdf"; Ingestion.component_info := ∅ |};
    {| Ingestion.pdf_path := Some "c.pdf"; Ingestion.component_info := ∅ |} ].

(** A schedule of two threads that call [_get_model], and the state
    it ends in. *)
Definition two_threads : list nat :=
  [0; 1; 0; 0; 0; 0; 0; 1; 1; 1; 0; 1]%nat.

Definition both_returned : @LazyInit.system env :=
  @LazyInit.Build_system env "m" (Some "m") None start 1 ["m"]
    [@LazyInit.Returned env (Some "m"); @LazyInit.Returned env (Some "m")].

(** A service that has not loaded its model, in the world at its
    start. *)
Definition new_service : @Embeddings.state env :=
  (@Embeddings.init env "m", start).

End TestEnv.

(* ===================================================================== *)
(** ** Vocabulary for the properties of the chunker *)
(* ===================================================================== *)

Module ChunkerSpec.
Import PyStr Chunker.

(** The keys [create_text_chunks] writes into the metadata of a chunk. *)
Definition chunk_keys : list string :=
  ["chunk_index"; "chunk_start"; "chunk_end"; "chunk_length";
   "total_text_length"].

(** A string that does not begin with white space. *)
Definition no_leading_space (s : str) : Prop :=
  match s with
  | c :: _ => isspace c = false
  | [] => True
  end.

(** A string that does not end with white space. *)
Definition no_trailing_space (s : str) : Prop := no_leading_space (rev s).

End ChunkerSpec.

Module IngestionSpec.

(** The keys [ingest_datasheet] writes into the metadata of the
    source. *)
Definition source_keys : list string :=
  ["source_file"; "source_path"; "mpn"; "manufacturer"; "category";
   "description"; "datasheet_url"; "ingestion_timestamp"; "file_hash"].

End IngestionSpec.

(* ===================================================================== *)
(** ** [VectorDBService]: queries, statistics and deletion *)
(* ===================================================================== *)

Module Queries.
Import PyStr Py VectorDB.
Local Open Scope py_scope.

Section Service.
Context `{Env}.

(** What the service reads in the answer of [collection.query]: the
    values under ['documents'], ['metadatas'] and ['distances'], each
    [None] or a list with one row per query text. *)
Record QueryResult : Type := {
  documents : option (list (list str));
  metadatas : option (list (list metadata));
  distances : option (list (list float))
}.

(** The calls of Chroma that only these methods make, and [str(e)]
    for an exception of a library.  [collection_query] is the query
    once the query texts are embedded: it receives the texts and
    their embeddings. *)
Class Chroma : Type := {
  collection_query :
    Collection -> list str -> list (list float) -> Z -> option metadata ->
    World -> (exn + QueryResult) * World;
  collection_count : Collection -> World -> (exn + Z) * World;
  client_delete_collection :
    Client -> string -> World -> (exn + unit) * World;
  exn_str : exn -> string
}.

Context `{Chroma}.





(** [str(e)] *)
Definition error_str (e : error) : string :=
  match e with
  | ValueError msg => msg
  | IndexError => "list index out of range"
  | Raised e => exn_str e
  end.

(** [get_collection_stats()]: the collection is obtained before the
    [try]. *)
Definition get_collection_stats : M state metadata :=
  let* collection := _get_collection in
  try_except
    (let* count := lib (collection_count collection) in
     fun s =>
       ret (<["total_documents" := VInt count]>
            (<["collection_name" := VStr (collection_name (fst s))]>
            (<["persist_directory" := VStr (persist_directory (fst s))]>
             ∅))) s)
    (fun e => ret {["error" := VStr (error_str e)]}).

Definition clear_collection : M state unit :=
  fun '(self, p) =>
    (inr tt,
     ({| persist_directory := persist_directory self;
         _client := _client self;
         _collection := None;
         collection_name := collection_name self |}, p)).

(** [delete_collection()]: the client is obtained before the [try];
    the [except] clause logs and raises again. *)
Definition delete_collection : M state unit :=
  let* client := _get_client in
  let* _ :=
    (fun s =>
       lib (client_delete_collection client (collection_name (fst s))) s) in
  clear_collection.

End Service.
End Queries.

(* ===================================================================== *)
(** ** Vocabulary for the runs of the threads *)
(* ===================================================================== *)

Module LazyInitSpec.
Import LazyInit.

Section Threads.
Context `{Env}.

(** A thread that has left [_get_model], by [return] or by the
    exception of the constructor. *)
Definition finished (c : pc) : Prop :=
  match c with
  | Returned _ | Failed _ => True
  | _ => False
  end.

(** The largest number of steps a thread at [c] has before it. *)
Definition remaining (c : pc) : nat :=
  match c with
  | AtTest => 7
  | AtAcquire => 6
  | AtTestLocked => 5
  | AtConstruct => 4
  | AtAssign _ => 3
  | AtRelease => 2
  | AtReleaseRaising _ => 1
  | AtReturn => 1
  | Returned _ | Failed _ => 0
  end.

Definition work (s : system) : nat := sum_list (remaining <$> threads s).

End Threads.
End LazyInitSpec.

(* ===================================================================== *)
(** ** More concrete inputs *)
(* ===================================================================== *)

Module MoreInputs.
Import PyStr Chunker.

(** 1500 letters, and the two chunks they are cut into: the whole
    text, and the 200 letters from index 1300 on. *)
Definition letters : str := replicate 1500 97%N.

Definition letters_head : str * metadata :=
  (letters, chunk_metadata ∅ 0 0 1500 1500 1500).

Definition letters_tail : str * metadata :=
  (replicate 200 97%N, chunk_metadata ∅ 1 1300 1500 200 1500).

(** Fifty times one plain sentence, without the blank at the end. *)
Definition plain_text : str :=
  strip
    (concat
       (replicate 50 (py "The quick brown fox jumps over the lazy dog. "))).

(** ["Hi."] as one chunk. *)
Definition greeting_chunk : str * metadata :=
  (Inputs.greeting, chunk_metadata ∅ 0 0 3 3 3).

(** The world after a first document was opened, the process in it,
    and that process after a datasheet was ingested in it: the
    services of the process are made, the model is loaded and the
    one chunk is stored. *)
Definition opened_once : TestEnv.world :=
  {| TestEnv.opened := 1; TestEnv.handed_out := 0; TestEnv.stored := [] |}.

Definition second_process : @VectorDB.process TestEnv.env :=
  @VectorDB.Build_process TestEnv.env opened_once None None.

Definition ingested_process : @VectorDB.process TestEnv.env :=
  @VectorDB.Build_process TestEnv.env
    {| TestEnv.opened := 2; TestEnv.handed_out := 1;
       TestEnv.stored := [("u0", Inputs.greeting)] |}
    (Some (@Embeddings.Build_EmbeddingService TestEnv.env
             Embeddings.default_model_name
             (Some Embeddings.default_model_name)))
    (Some (@VectorDB.Build_VectorDBService TestEnv.env "./data/chroma_db"
             (Some tt) (Some tt) "component_datasheets")).

(** The metadata of the source of ["a.pdf"] with no information on
    the component, and the one chunk of ["Hi."] under it. *)
Definition a_pdf_metadata : metadata :=
  @Ingestion.source_metadata_of TestEnv.env "a.pdf" ∅ "00".

Definition a_pdf_chunk : str * metadata :=
  (Inputs.greeting, chunk_metadata a_pdf_metadata 0 0 3 3 3).

(** Two threads, when the first has assigned the model and still
    holds the lock for which the second waits. *)
Definition model_assigned : @LazyInit.system TestEnv.env :=
  @LazyInit.Build_system TestEnv.env "m" (Some "m") (Some 0%nat)
    TestEnv.start 1 ["m"]
    [@LazyInit.AtRelease TestEnv.env; @LazyInit.AtAcquire TestEnv.env].

(** A store that answers a query with the texts it holds, in one
    row, and without metadata. *)
Definition chroma : @Queries.Chroma TestEnv.env :=
  @Queries.Build_Chroma TestEnv.env
    (fun _ _ _ _ _ (w : TestEnv.world) =>
       (inr (@Queries.Build_QueryResult TestEnv.env
               (Some [List.map snd (TestEnv.stored w)]) None (Some [])), w))
    (fun _ (w : TestEnv.world) =>
       (inr (Z.of_nat (length (TestEnv.stored w))), w))
    (fun _ _ (w : TestEnv.world) =>
       (inr tt,
        {| TestEnv.opened := TestEnv.opened w;
           TestEnv.handed_out := TestEnv.handed_out w;
           TestEnv.stored := [] |}))
    (fun e => e).

(** The service as [__init__] leaves it. *)
Definition new_vector_service : @VectorDB.VectorDBService TestEnv.env :=
  @VectorDB.Build_VectorDBService TestEnv.env "./data/chroma_db" None None
    "component_datasheets".

(** The service of [ingested_process], and the state its methods
    run in. *)
Definition ingested_service : @VectorDB.VectorDBService TestEnv.env :=
  @VectorDB.Build_VectorDBService TestEnv.env "./data/chroma_db"
    (Some tt) (Some tt) "component_datasheets".

Definition ingested_state : @VectorDB.state TestEnv.env :=
  (ingested_service, ingested_process).

End MoreInputs.

(* ===================================================================== *)
(** ** Facts about Python strings *)
(* ===================================================================== *)

Module PyStrFacts.
Import PyStr.

Lemma len_nonneg (s : str) : 0 <= len s.
Proof. unfold len. lia. Qed.

Lemma len_nil_inv (s : str) : len s = 0 -> s = [].
Proof. destruct s; [reflexivity | unfold len; simpl; lia]. Qed.

Lemma lstrip_length (s : str) : (length (lstrip s) <= length s)%nat.
Proof.
  induction s as [|c s IH]; simpl; [lia|].
  destruct (isspace c); simpl; lia.
Qed.

Lemma rstrip_length (s : str) : (length (rstrip s) <= length s)%nat.
Proof.
  unfold rstrip. rewrite length_rev.
  etransitivity; [apply lstrip_length|]. rewrite length_rev. lia.
Qed.

Lemma strip_len (s : str) : len (strip s) <= len s.
Proof.
  unfold strip, len.
  pose proof (rstrip_length (lstrip s)). pose proof (lstrip_length s). lia.
Qed.

Lemma adjust_index_range (n i : Z) : 0 <= n -> 0 <= adjust_index n i <= n.
Proof. unfold adjust_index. destruct (i <? 0) eqn:E; lia. Qed.

Lemma adjust_index_inside (n i : Z) : 0 <= i <= n -> adjust_index n i = i.
Proof. unfold adjust_index. destruct (i <? 0) eqn:E; lia. Qed.

Lemma adjust_index_nonneg (n i : Z) : 0 <= i -> adjust_index n i = Z.min i n.
Proof. unfold adjust_index. destruct (i <? 0) eqn:E; lia. Qed.

Lemma slice_inside (s : str) (a b : Z) :
  0 <= a <= b -> b <= len s ->
  slice s a b = take (Z.to_nat (b - a)) (drop (Z.to_nat a) s).
Proof.
  intros Hab Hb. unfold slice.
  rewrite !adjust_index_inside by lia. reflexivity.
Qed.

Lemma slice_len (s : str) (a b : Z) :
  0 <= a <= b -> b <= len s -> len (slice s a b) = b - a.
Proof.
  intros Hab Hb. rewrite slice_inside by assumption.
  unfold len in *. rewrite length_take, length_drop. lia.
Qed.

Lemma slice_whole (s : str) : slice s 0 (len s) = s.
Proof.
  pose proof (len_nonneg s).
  rewrite slice_inside by lia. simpl.
  unfold len. rewrite Z.sub_0_r, Nat2Z.id. apply firstn_all.
Qed.

(** What a successful [rfind_down] tells about its answer. *)
Lemma rfind_down_spec (s sub : str) (lo : Z) (n : nat) :
  let r := rfind_down s sub lo n in
  r = -1 \/ (lo <= r < lo + Z.of_nat n /\ occurs_at s sub r = true).
Proof.
  induction n as [|k IH]; simpl; [left; reflexivity|].
  destruct (occurs_at s sub (lo + Z.of_nat k)) eqn:E.
  - right. split; [lia | exact E].
  - destruct IH as [IH | [IH1 IH2]]; [left; exact IH | right].
    split; [lia | exact IH2].
Qed.

(** No occurrence lies above the answer of [rfind_down]. *)
Lemma rfind_down_highest (s sub : str) (lo : Z) (n : nat) (i : Z) :
  lo <= i < lo + Z.of_nat n -> occurs_at s sub i = true ->
  i <= rfind_down s sub lo n /\ lo <= rfind_down s sub lo n.
Proof.
  induction n as [|k IH]; simpl; intros Hi Hocc; [lia|].
  destruct (occurs_at s sub (lo + Z.of_nat k)) eqn:E; [lia|].
  assert (i <> lo + Z.of_nat k) by (intros ->; congruence).
  apply IH; [lia | exact Hocc].
Qed.

Lemma adjust_start_nonneg (n i : Z) : 0 <= i -> adjust_start n i = i.
Proof. unfold adjust_start. destruct (i <? 0) eqn:E; lia. Qed.

(** [rfind] within a window that ends inside the string. *)
Lemma rfind_spec (s sub : str) (a b : Z) :
  0 <= a -> 0 <= b <= len s ->
  let r := rfind s sub a b in
  r = -1 \/ (a <= r /\ r + len sub <= b /\ occurs_at s sub r = true).
Proof.
  intros Ha Hb. unfold rfind.
  rewrite (adjust_index_inside (len s) b) by lia.
  rewrite (adjust_start_nonneg (len s) a) by lia.
  pose proof (rfind_down_spec s sub a (Z.to_nat (b - len sub - a + 1))) as H.
  simpl in H. destruct H as [H | [H1 H2]]; [left; exact H | right].
  repeat split; [lia | lia | exact H2].
Qed.

Lemma rfind_highest (s sub : str) (a b i : Z) :
  0 <= a -> 0 <= b <= len s ->
  a <= i -> i + len sub <= b -> occurs_at s sub i = true ->
  i <= rfind s sub a b /\ a <= rfind s sub a b.
Proof.
  intros Ha Hb Hi1 Hi2 Hocc. unfold rfind.
  rewrite (adjust_index_inside (len s) b) by lia.
  rewrite (adjust_start_nonneg (len s) a) by lia.
  apply rfind_down_highest; [lia | exact Hocc].
Qed.

End PyStrFacts.

(* ===================================================================== *)
(** ** Facts about the chunker *)
(* ===================================================================== *)

Module ChunkerFacts.
Import PyStr PyStrFacts Chunker.

Section Loop.

Variable self : DatasheetIngestionService.
Variable text : str.
Variable source_metadata : metadata.

Hypothesis min_pos : 0 < min_chunk_size self.
Hypothesis min_le_max : min_chunk_size self <= max_chunk_size self.
Hypothesis overlap_nonneg : 0 <= overlap_size self.

(** *** The sentence search *)

Lemma sentence_pattern_len (pattern : str) :
  pattern ∈ sentence_patterns -> len pattern = 2.
Proof.
  unfold sentence_patterns. rewrite !elem_of_cons, elem_of_nil.
  intros H. repeat (destruct H as [-> | H]; [reflexivity|]). contradiction.
Qed.

Lemma try_pattern_ok (search_start end_pos e : Z) (pattern : str) :
  0 <= search_start -> 0 <= end_pos <= len text ->
  pattern ∈ sentence_patterns ->
  sentence_end_ok text search_start end_pos e ->
  sentence_end_ok text search_start end_pos
    (try_pattern text search_start end_pos e pattern).
Proof.
  intros Hs He Hin Hok. unfold try_pattern.
  destruct (rfind text pattern search_start end_pos >? e) eqn:E;
    [|exact Hok].
  apply Z.gtb_lt in E.
  assert (-1 <= e) as Hlow.
  { destruct Hok as [-> | (p & _ & H1 & _)]; lia. }
  pose proof (sentence_pattern_len pattern Hin) as Hlen.
  pose proof (rfind_spec text pattern search_start end_pos Hs He) as H.
  simpl in H. destruct H as [H | (H1 & H2 & H3)]; [lia|].
  right. exists pattern. rewrite Hlen in *.
  replace (rfind text pattern search_start end_pos + 2 - 2)
    with (rfind text pattern search_start end_pos) by lia.
  repeat split; assumption || lia.
Qed.

Lemma fold_try_pattern_ok (search_start end_pos : Z) (patterns : list str) :
  0 <= search_start -> 0 <= end_pos <= len text ->
  (forall p, p ∈ patterns -> p ∈ sentence_patterns) ->
  forall e, sentence_end_ok text search_start end_pos e ->
  sentence_end_ok text search_start end_pos
    (fold_left (try_pattern text search_start end_pos) patterns e).
Proof.
  intros Hs He. induction patterns as [|p ps IH]; intros Hsub e Hok; simpl.
  - exact Hok.
  - apply IH.
    + intros q Hq. apply Hsub. apply elem_of_cons. now right.
    + apply try_pattern_ok; try assumption. apply Hsub. apply elem_of_cons. now left.
Qed.

Lemma find_sentence_end_ok (search_start end_pos : Z) :
  0 <= search_start -> 0 <= end_pos <= len text ->
  sentence_end_ok text search_start end_pos
    (find_sentence_end text search_start end_pos).
Proof.
  intros Hs He. unfold find_sentence_end.
  apply fold_try_pattern_ok; try assumption; [auto | left; reflexivity].
Qed.

(** The running [sentence_end] never decreases. *)
Lemma try_pattern_mono (search_start end_pos e : Z) (pattern : str) :
  pattern ∈ sentence_patterns ->
  e <= try_pattern text search_start end_pos e pattern.
Proof.
  intros Hin. unfold try_pattern.
  pose proof (sentence_pattern_len pattern Hin).
  destruct (rfind text pattern search_start end_pos >? e) eqn:E; lia.
Qed.

Lemma fold_try_pattern_mono (search_start end_pos : Z) (patterns : list str) :
  (forall p, p ∈ patterns -> p ∈ sentence_patterns) ->
  forall e, e <= fold_left (try_pattern text search_start end_pos) patterns e.
Proof.
  induction patterns as [|p ps IH]; intros Hsub e; simpl; [lia|].
  etransitivity; [apply (try_pattern_mono search_start end_pos e p)|].
  - apply Hsub. apply elem_of_cons. now left.
  - apply IH. intros q Hq. apply Hsub. apply elem_of_cons. now right.
Qed.

(** Every occurrence of a tried delimiter inside the window starts at
    or before the running [sentence_end]. *)
Lemma fold_try_pattern_upper (search_start end_pos : Z) (patterns : list str) :
  0 <= search_start -> 0 <= end_pos <= len text ->
  (forall p, p ∈ patterns -> p ∈ sentence_patterns) ->
  forall e p i,
    p ∈ patterns -> search_start <= i -> i + 2 <= end_pos ->
    occurs_at text p i = true ->
    i <= fold_left (try_pattern text search_start end_pos) patterns e.
Proof.
  intros Hs He. induction patterns as [|q qs IH]; intros Hsub e p i Hin Hi1 Hi2 Hocc.
  - apply elem_of_nil in Hin. contradiction.
  - simpl. apply elem_of_cons in Hin. destruct Hin as [-> | Hin].
    + etransitivity;
        [|apply fold_try_pattern_mono; intros r Hr; apply Hsub;
          apply elem_of_cons; now right].
      assert (q ∈ sentence_patterns) as Hq
        by (apply Hsub; apply elem_of_cons; now left).
      pose proof (sentence_pattern_len q Hq) as Hlen.
      destruct (rfind_highest text q search_start end_pos i) as [Hhi _];
        try assumption; [lia|].
      unfold try_pattern.
      destruct (rfind text q search_start end_pos >? e) eqn:E; lia.
    + apply (IH (fun r Hr => Hsub r (proj2 (elem_of_cons _ _ _) (or_intror Hr)))
               _ p i); assumption.
Qed.

(** *** One iteration *)

Lemma chunk_end_pos_bounds (start : Z) :
  0 <= start < len text ->
  let e := chunk_end_pos self text start in
  start < e <= len text /\ (e = len text \/ start + min_chunk_size self <= e).
Proof.
  intros Hstart. unfold chunk_end_pos.
  set (ep := Z.min (start + max_chunk_size self) (len text)).
  destruct (ep <? len text) eqn:E.
  - apply Z.ltb_lt in E.
    set (ss := Z.max (start + min_chunk_size self) (ep - 200)).
    assert (0 <= ss) by lia.
    assert (0 <= ep <= len text) by lia.
    pose proof (find_sentence_end_ok ss ep ltac:(assumption) ltac:(assumption))
      as [Hnone | (p & _ & H1 & H2 & _)].
    + rewrite Hnone. simpl. lia.
    + destruct (find_sentence_end text ss ep >? 0) eqn:E2; simpl; lia.
  - apply Z.ltb_ge in E. simpl. lia.
Qed.

Lemma next_start_pos_progress (start e : Z) :
  start + min_chunk_size self <= next_start_pos self start e.
Proof.
  unfold next_start_pos.
  destruct (Z.max _ _ <=? start) eqn:E; lia.
Qed.

Lemma next_start_pos_no_gap (start e : Z) :
  start + min_chunk_size self <= e -> next_start_pos self start e <= e.
Proof.
  intros H. unfold next_start_pos.
  destruct (Z.max _ _ <=? start) eqn:E; lia.
Qed.

Lemma loop_body_start_pos (st : loop_state) :
  start_pos (loop_body self text source_metadata st) =
  next_start_pos self (start_pos st)
    (chunk_end_pos self text (start_pos st)).
Proof.
  unfold loop_body. destruct (keeps _ _ _ _); reflexivity.
Qed.

Lemma loop_body_progress (st : loop_state) :
  start_pos st + min_chunk_size self
    <= start_pos (loop_body self text source_metadata st).
Proof. rewrite loop_body_start_pos. apply next_start_pos_progress. Qed.

Lemma loop_body_chunks (st : loop_state) :
  chunks (loop_body self text source_metadata st) =
  chunks st ++
  (if kept self text st then [emitted self text source_metadata st] else []).
Proof.
  unfold loop_body, kept, emitted.
  destruct (keeps _ _ _ _); simpl; [reflexivity | now rewrite app_nil_r].
Qed.

(** *** The loop *)

Abbreviation loop fuel := (while_loop fuel self text source_metadata).
Abbreviation body := (loop_body self text source_metadata).
Abbreviation heads fuel := (iterations fuel self text source_metadata).

Lemma while_loop_eq (fuel : nat) (st : loop_state) :
  loop fuel st =
  if start_pos st <? len text then
    match fuel with
    | O => None
    | S fuel' =>
        if start_pos (body st) >=? len text then Some (body st)
        else loop fuel' (body st)
    end
  else Some st.
Proof. destruct fuel; reflexivity. Qed.

Lemma iterations_eq (fuel : nat) (st : loop_state) :
  heads fuel st =
  if start_pos st <? len text then
    match fuel with
    | O => []
    | S fuel' =>
        st :: (if start_pos (body st) >=? len text then []
               else heads fuel' (body st))
    end
  else [].
Proof. destruct fuel; reflexivity. Qed.

Lemma while_loop_done (fuel : nat) (st : loop_state) :
  len text <= start_pos st -> loop fuel st = Some st.
Proof.
  intros H. apply Z.ltb_ge in H. rewrite while_loop_eq, H. reflexivity.
Qed.

(** Enough fuel: each iteration moves the cursor by at least
    [min_chunk_size]. *)
Lemma while_loop_terminates (fuel : nat) (st : loop_state) :
  len text - start_pos st <= Z.of_nat fuel * min_chunk_size self ->
  exists st', loop fuel st = Some st'.
Proof.
  revert st. induction fuel as [|fuel IH]; intros st Hfuel.
  - exists st. apply while_loop_done. lia.
  - rewrite while_loop_eq.
    destruct (start_pos st <? len text); [|eauto].
    destruct (start_pos (body st) >=? len text); [eauto|].
    apply IH. pose proof (loop_body_progress st). lia.
Qed.

(** More fuel does not change the answer. *)
Lemma while_loop_fuel_mono (fuel fuel' : nat) (st st' : loop_state) :
  (fuel <= fuel')%nat -> loop fuel st = Some st' -> loop fuel' st = Some st'.
Proof.
  revert fuel' st. induction fuel as [|fuel IH]; intros fuel' st Hle Hrun;
    rewrite while_loop_eq in Hrun; rewrite while_loop_eq;
    destruct (start_pos st <? len text); try exact Hrun; try discriminate.
  destruct fuel' as [|fuel']; [lia|].
  destruct (start_pos (body st) >=? len text); [exact Hrun|].
  apply IH; [lia | exact Hrun].
Qed.

Lemma loop_body_chunk_count (st : loop_state) :
  (length (chunks (body st)) <= length (chunks st) + 1)%nat.
Proof.
  rewrite loop_body_chunks, length_app.
  destruct (kept self text st); simpl; lia.
Qed.

(** At most one chunk per unit of fuel. *)
Lemma while_loop_chunk_count (fuel : nat) (st st' : loop_state) :
  loop fuel st = Some st' ->
  (length (chunks st') <= length (chunks st) + fuel)%nat.
Proof.
  revert st. induction fuel as [|fuel IH]; intros st Hrun;
    rewrite while_loop_eq in Hrun;
    (destruct (start_pos st <? len text);
       [|injection Hrun as <-; lia]); [discriminate|].
  pose proof (loop_body_chunk_count st).
  destruct (start_pos (body st) >=? len text).
  - injection Hrun as <-. lia.
  - apply IH in Hrun. lia.
Qed.

Lemma iterations_length (fuel : nat) (st : loop_state) :
  (length (heads fuel st) <= fuel)%nat.
Proof.
  revert st. induction fuel as [|fuel IH]; intros st; rewrite iterations_eq;
    destruct (start_pos st <? len text); cbn [length]; try lia.
  destruct (start_pos (body st) >=? len text); cbn [length]; [lia|].
  specialize (IH (body st)). lia.
Qed.

(** Every iteration starts inside the text. *)
Lemma iterations_inside (fuel : nat) (st it : loop_state) :
  0 <= start_pos st -> it ∈ heads fuel st ->
  0 <= start_pos it < len text.
Proof.
  revert st. induction fuel as [|fuel IH]; intros st Hst Hin;
    rewrite iterations_eq in Hin;
    (destruct (start_pos st <? len text) eqn:E;
       [|apply elem_of_nil in Hin; contradiction]);
    [apply elem_of_nil in Hin; contradiction|].
  apply Z.ltb_lt in E.
  apply elem_of_cons in Hin. destruct Hin as [-> | Hin]; [lia|].
  destruct (start_pos (body st) >=? len text);
    [apply elem_of_nil in Hin; contradiction|].
  apply (IH (body st)); [|exact Hin].
  pose proof (loop_body_progress st). lia.
Qed.

(** The loop only appends. *)
Lemma while_loop_keeps_chunks (fuel : nat) (st st' : loop_state)
    (c : str * metadata) :
  loop fuel st = Some st' -> c ∈ chunks st -> c ∈ chunks st'.
Proof.
  revert st. induction fuel as [|fuel IH]; intros st Hrun Hc;
    rewrite while_loop_eq in Hrun;
    (destruct (start_pos st <? len text);
       [|now injection Hrun as <-]); [discriminate|].
  assert (c ∈ chunks (body st)) as Hc'.
  { rewrite loop_body_chunks. apply elem_of_app. now left. }
  destruct (start_pos (body st) >=? len text).
  - now injection Hrun as <-.
  - now apply (IH (body st)).
Qed.

(** The chunks of the final state hold one chunk per iteration whose
    keep test passed. *)
Lemma while_loop_emits (fuel : nat) (st st' it : loop_state) :
  loop fuel st = Some st' -> it ∈ heads fuel st ->
  kept self text it = true ->
  emitted self text source_metadata it ∈ chunks st'.
Proof.
  revert st. induction fuel as [|fuel IH]; intros st Hrun Hin Hk;
    rewrite while_loop_eq in Hrun; rewrite iterations_eq in Hin;
    (destruct (start_pos st <? len text);
       [|apply elem_of_nil in Hin; contradiction]); [discriminate|].
  apply elem_of_cons in Hin.
  assert (it = st ->
          emitted self text source_metadata it ∈ chunks (body st)) as Hhere.
  { intros ->. rewrite loop_body_chunks, Hk.
    apply elem_of_app. right. apply list_elem_of_singleton. reflexivity. }
  destruct (start_pos (body st) >=? len text).
  - injection Hrun as <-. destruct Hin as [Heq | Hin]; [auto|].
    apply elem_of_nil in Hin. contradiction.
  - destruct Hin as [Heq | Hin].
    + apply (while_loop_keeps_chunks fuel (body st)); auto.
    + now apply (IH (body st)).
Qed.

(** Conversely every chunk of the final state was already there or was
    emitted by an iteration. *)
Lemma while_loop_chunks_inv (fuel : nat) (st st' : loop_state)
    (c : str * metadata) :
  loop fuel st = Some st' -> c ∈ chunks st' ->
  c ∈ chunks st \/
  exists it, it ∈ heads fuel st /\ kept self text it = true /\
             c = emitted self text source_metadata it.
Proof.
  revert st. induction fuel as [|fuel IH]; intros st Hrun Hc;
    rewrite while_loop_eq in Hrun; rewrite iterations_eq;
    (destruct (start_pos st <? len text);
       [|injection Hrun as <-; now left]); [discriminate|].
  assert (c ∈ chunks (body st) ->
          c ∈ chunks st \/
          (kept self text st = true /\
           c = emitted self text source_metadata st)) as Hhere.
  { rewrite loop_body_chunks, elem_of_app. intros [H | H]; [now left|].
    destruct (kept self text st); [|apply elem_of_nil in H; contradiction].
    apply list_elem_of_singleton in H. right. now split. }
  destruct (start_pos (body st) >=? len text).
  - injection Hrun as <-. destruct (Hhere Hc) as [H | [H1 H2]]; [now left|].
    right. exists st. split; [apply elem_of_cons; now left | now split].
  - destruct (IH (body st) Hrun Hc) as [H | (it & H1 & H2 & H3)].
    + destruct (Hhere H) as [H' | [H1 H2]]; [now left|].
      right. exists st. split; [apply elem_of_cons; now left | now split].
    + right. exists it. split; [apply elem_of_cons; now right | now split].
Qed.

(** No gap between the windows of successive iterations. *)
Lemma iterations_cover (fuel : nat) (st : loop_state) (i : Z) :
  len text - start_pos st <= Z.of_nat fuel * min_chunk_size self ->
  0 <= start_pos st <= i -> i < len text ->
  exists it, it ∈ heads fuel st /\
    start_pos it <= i < chunk_end_pos self text (start_pos it).
Proof.
  revert st. induction fuel as [|fuel IH]; intros st Hfuel Hst Hi; [lia|].
  rewrite iterations_eq.
  assert (start_pos st < len text) as Hlt by lia.
  pose proof Hlt as Hltb. apply Z.ltb_lt in Hltb. rewrite Hltb.
  destruct (chunk_end_pos_bounds (start_pos st) ltac:(lia)) as [Hb Hgap].
  destruct (Z.lt_ge_cases i (chunk_end_pos self text (start_pos st)))
    as [Hin | Hout].
  - exists st. split; [apply elem_of_cons; now left | lia].
  - assert (start_pos (body st) <= i) as Hnext.
    { rewrite loop_body_start_pos.
      etransitivity; [apply next_start_pos_no_gap; lia | exact Hout]. }
    assert ((start_pos (body st) >=? len text) = false) as ->
      by (rewrite Z.geb_leb; apply Z.leb_gt; lia).
    pose proof (loop_body_progress st).
    destruct (IH (body st)) as (it & H1 & H2); [lia | lia | lia |].
    exists it. split; [apply elem_of_cons; now right | exact H2].
Qed.

End Loop.
End ChunkerFacts.

(* ===================================================================== *)
(** ** The chunker with the settings of [__init__] *)
(* ===================================================================== *)

Module ChunkerProps.
Import PyStr PyStrFacts Chunker ChunkerFacts.

Lemma init_min_pos : 0 < min_chunk_size init.
Proof. reflexivity. Qed.

Lemma init_min_le_max : min_chunk_size init <= max_chunk_size init.
Proof. discriminate. Qed.

Lemma init_overlap_nonneg : 0 <= overlap_size init.
Proof. discriminate. Qed.

Lemma iteration_bound_enough (text : str) :
  len text <= Z.of_nat (iteration_bound text) * 1000.
Proof.
  unfold iteration_bound. pose proof (len_nonneg text).
  rewrite Z2Nat.id by (apply Z.div_pos; lia).
  pose proof (Z.div_mod (len text + 999) 1000 ltac:(lia)).
  pose proof (Z.mod_pos_bound (len text + 999) 1000 ltac:(lia)).
  lia.
Qed.

Lemma iteration_bound_le_length (text : str) :
  (iteration_bound text <= length text)%nat.
Proof.
  unfold iteration_bound. pose proof (len_nonneg text). unfold len in *.
  apply Nat2Z.inj_le. rewrite Z2Nat.id by (apply Z.div_pos; lia).
  destruct (Z.eq_dec (Z.of_nat (length text)) 0) as [-> | Hne];
    [discriminate|].
  apply Z.div_le_upper_bound; lia.
Qed.

Lemma length_enough (text : str) : len text <= Z.of_nat (length text) * 1000.
Proof. unfold len. lia. Qed.

(** The loop comes to an end, whatever the text. *)
Lemma while_loop_init_runs (text : str) (md : metadata) :
  exists st,
    while_loop (iteration_bound text) init text md initial_state = Some st /\
    while_loop (length text) init text md initial_state = Some st.
Proof.
  destruct (while_loop_terminates init text md
              (iteration_bound text) initial_state) as [st Hst].
  { pose proof (iteration_bound_enough text). simpl. lia. }
  exists st. split; [exact Hst|].
  eapply while_loop_fuel_mono; [apply iteration_bound_le_length | exact Hst].
Qed.

Lemma create_text_chunks_nonblank (text : str) (md : metadata) :
  truthy (strip text) = true ->
  create_text_chunks init text md =
  chunks <$> while_loop (length text) init text md initial_state.
Proof. intros H. unfold create_text_chunks. rewrite H. reflexivity. Qed.

Lemma windows_nonblank (text : str) (md : metadata) :
  truthy (strip text) = true ->
  windows init text md =
  (fun st => (start_pos st, chunk_end_pos init text (start_pos st))) <$>
    iterations (length text) init text md initial_state.
Proof. intros H. unfold windows. rewrite H. reflexivity. Qed.

(** What the metadata of an emitted chunk records. *)
Lemma chunk_metadata_lookup (md : metadata) (idx s e l total : Z) :
  let cm := chunk_metadata md idx s e l total in
  cm !! "chunk_index" = Some (VInt idx) /\
  cm !! "chunk_start" = Some (VInt s) /\
  cm !! "chunk_end" = Some (VInt e) /\
  cm !! "chunk_length" = Some (VInt l) /\
  cm !! "total_text_length" = Some (VInt total).
Proof.
  unfold chunk_metadata. repeat split;
    repeat first [ apply lookup_insert_eq
                 | rewrite lookup_insert_ne by discriminate ].
Qed.

(** A window that trimming leaves alone passes the keep test. *)
Lemma untrimmed_window_kept (text : str) (md : metadata) (it : loop_state) :
  0 <= start_pos it < len text ->
  let e := chunk_end_pos init text (start_pos it) in
  let chunk_text := strip (slice text (start_pos it) e) in
  1000 <= len chunk_text \/ chunk_text = slice text (start_pos it) e ->
  kept init text it = true.
Proof.
  intros Hin e chunk_text Hcond. unfold kept, keeps. fold e. fold chunk_text.
  destruct (chunk_end_pos_bounds init text init_min_pos init_min_le_max
              (start_pos it) Hin) as [Hb Hgap]. fold e in Hb, Hgap.
  apply orb_true_iff. simpl min_chunk_size in *.
  destruct Hcond as [Hlong | Hsame].
  - left. apply Z.geb_le. exact Hlong.
  - assert (len chunk_text = e - start_pos it) as Hlen.
    { rewrite Hsame. apply slice_len; lia. }
    destruct Hgap as [Hend | Hfar].
    + right. apply Z.geb_le. lia.
    + left. apply Z.geb_le. lia.
Qed.


(** C4.  Progress and termination: every pass through the loop body
    moves the cursor forward by at least [min_chunk_size] = 1000, so
    on a text of length [N] the loop ends within [ceil(N / 1000)]
    iterations (one unit of fuel each), [create_text_chunks] returns,
    and it returns at most [ceil(N / 1000)] chunks. *)
Theorem create_text_chunks_terminates (text : str) (md : metadata) :
  (forall st : loop_state,
     start_pos st + 1000 <= start_pos (loop_body init text md st)) /\
  exists st,
    while_loop (iteration_bound text) init text md initial_state = Some st /\
    create_text_chunks init text md
      = Some (if truthy (strip text) then chunks st else []) /\
    (length (chunks st) <= iteration_bound text)%nat /\
    Z.of_nat (iteration_bound text) = (len text + 999) / 1000.
Proof.
  split.
  - intros st. apply (loop_body_progress init text md st).
  - destruct (while_loop_init_runs text md) as (st & Hshort & Hfull).
    exists st. split; [exact Hshort|]. split; [|split].
    + unfold create_text_chunks.
      destruct (truthy (strip text)); simpl; [|reflexivity].
      rewrite Hfull. reflexivity.
    + apply while_loop_chunk_count in Hshort. simpl in Hshort. lia.
    + unfold iteration_bound. pose proof (len_nonneg text).
      apply Z2Nat.id. apply Z.div_pos; lia.
Qed.

(** A window that ends before the end of the text and whose trimmed
    text is shorter than [min_chunk_size] fails the keep test. *)
Lemma short_inner_window_dropped (text : str) (it : loop_state) :
  0 <= start_pos it < len text ->
  let e := chunk_end_pos init text (start_pos it) in
  len (strip (slice text (start_pos it) e)) < 1000 -> e < len text ->
  kept init text it = false.
Proof.
  intros Hin e Hshort Hinner. unfold kept, keeps. fold e.
  destruct (chunk_end_pos_bounds init text init_min_pos init_min_le_max
              (start_pos it) Hin) as [Hb _]. fold e in Hb.
  pose proof (strip_len (slice text (start_pos it) e)) as Hle.
  rewrite slice_len in Hle by lia. simpl min_chunk_size.
  apply orb_false_iff. split; rewrite Z.geb_leb; apply Z.leb_gt; lia.
Qed.

(** C1, as amended.  On a text that is not all white space, every
    index of [[0, len(text))] lies in the [[start, end)] window of some
    iteration of the loop.  A window whose trimmed text has at least
    [min_chunk_size] = 1000 characters is returned as a chunk with
    [chunk_start = start] and [chunk_end = end], so the indices of
    such a window lie in the span of a chunk.  A window that ends
    before the end of the text and whose trimmed text is shorter is
    dropped: no chunk starts where it starts. *)
Theorem kept_windows_cover_text (text : str) (md : metadata) (i : Z) :
  truthy (strip text) = true -> 0 <= i < len text ->
  exists chunks s e,
    create_text_chunks init text md = Some chunks /\
    (s, e) ∈ windows init text md /\ s <= i < e /\
    (1000 <= len (strip (slice text s e)) ->
     in_some_span chunks i = true) /\
    forall s' e', (s', e') ∈ windows init text md ->
      (1000 <= len (strip (slice text s' e')) ->
       exists cm,
         (strip (slice text s' e'), cm) ∈ chunks /\
         cm !! "chunk_start" = Some (VInt s') /\
         cm !! "chunk_end" = Some (VInt e')) /\
      (len (strip (slice text s' e')) < 1000 -> e' < len text ->
       forall c, c ∈ chunks -> snd c !! "chunk_start" <> Some (VInt s')).
Proof.
  intros Hnonblank Hi.
  destruct (while_loop_init_runs text md) as (st & _ & Hfull).
  assert (create_text_chunks init text md = Some (chunks st)) as Hrun.
  { rewrite create_text_chunks_nonblank by assumption.
    rewrite Hfull. reflexivity. }
  assert (forall s' e', (s', e') ∈ windows init text md ->
            exists it,
              it ∈ iterations (length text) init text md initial_state /\
              0 <= start_pos it < len text /\
              s' = start_pos it /\
              e' = chunk_end_pos init text (start_pos it)) as Hwindow.
  { intros s' e' Hin. rewrite windows_nonblank in Hin by assumption.
    apply list_elem_of_fmap in Hin. destruct Hin as (it & Heq & Hit).
    injection Heq as -> ->. exists it. split; [exact Hit|].
    split; [|split; reflexivity].
    apply (iterations_inside init text md init_min_pos (length text)
             initial_state it); [simpl; lia | exact Hit]. }
  assert (forall s' e', (s', e') ∈ windows init text md ->
            1000 <= len (strip (slice text s' e')) ->
            exists cm,
              (strip (slice text s' e'), cm) ∈ chunks st /\
              cm !! "chunk_start" = Some (VInt s') /\
              cm !! "chunk_end" = Some (VInt e')) as Hkeep.
  { intros s' e' Hin Hlong.
    destruct (Hwindow s' e' Hin) as (it & Hit & Hinside & -> & ->).
    pose proof (untrimmed_window_kept text md it Hinside (or_introl Hlong))
      as Hkept.
    pose proof (while_loop_emits init text md (length text) initial_state st
                  it Hfull Hit Hkept) as Hem.
    unfold emitted in Hem.
    destruct (chunk_metadata_lookup md (chunk_index it) (start_pos it)
                (chunk_end_pos init text (start_pos it))
                (len (strip (slice text (start_pos it)
                               (chunk_end_pos init text (start_pos it)))))
                (len text)) as (_ & Hs & He & _).
    eexists. split; [exact Hem|]. split; [exact Hs | exact He]. }
  destruct (iterations_cover init text md init_min_pos init_min_le_max
              init_overlap_nonneg (length text) initial_state i)
    as (it & Hit & Hspan).
  { pose proof (length_enough text). simpl. lia. }
  { simpl. lia. }
  { lia. }
  assert ((start_pos it, chunk_end_pos init text (start_pos it))
          ∈ windows init text md) as Hin.
  { rewrite windows_nonblank by assumption.
    apply list_elem_of_fmap. exists it. split; [reflexivity | exact Hit]. }
  exists (chunks st), (start_pos it), (chunk_end_pos init text (start_pos it)).
  split; [exact Hrun|]. split; [exact Hin|]. split; [exact Hspan|].
  split.
  - intros Hlong. destruct (Hkeep _ _ Hin Hlong) as (cm & Hem & Hs & He).
    unfold in_some_span. apply existsb_exists.
    eexists. split; [apply list_elem_of_In; exact Hem|].
    unfold chunk_span. simpl fst. simpl snd. rewrite Hs, He.
    apply andb_true_iff. split; [apply Z.leb_le | apply Z.ltb_lt]; lia.
  - intros s' e' Hin'. split; [apply Hkeep; exact Hin'|].
    intros Hshort Hinner c Hc Hstart.
    destruct (Hwindow s' e' Hin') as (it' & _ & Hinside' & -> & ->).
    destruct (while_loop_chunks_inv init text md _ _ _ c Hfull Hc)
      as [Hnil | (it0 & Hit0 & Hkept0 & ->)];
      [apply elem_of_nil in Hnil; contradiction|].
    unfold emitted in Hstart. simpl snd in Hstart.
    destruct (chunk_metadata_lookup md (chunk_index it0) (start_pos it0)
                (chunk_end_pos init text (start_pos it0))
                (len (strip (slice text (start_pos it0)
                               (chunk_end_pos init text (start_pos it0)))))
                (len text)) as (_ & Hs & _).
    rewrite Hs in Hstart. injection Hstart as Hsame.
    pose proof (short_inner_window_dropped text it' Hinside' Hshort Hinner)
      as Hdropped.
    unfold kept in Hkept0, Hdropped. rewrite Hsame in Hkept0. congruence.
Qed.

(** C5, as amended.  Every chunk that [create_text_chunks] returns
    records [0 <= chunk_start < chunk_end <= total_text_length], the
    text of the chunk is the trimmed slice between the two, and
    [chunk_length] is the length of that trimmed text, which is at
    least 1 and at most [chunk_end - chunk_start]. *)
Theorem chunk_metadata_invariant (text : str) (md : metadata)
    (chunks : list (str * metadata)) (c : str * metadata) :
  create_text_chunks init text md = Some chunks -> c ∈ chunks ->
  exists s e,
    snd c !! "chunk_start" = Some (VInt s) /\
    snd c !! "chunk_end" = Some (VInt e) /\
    snd c !! "total_text_length" = Some (VInt (len text)) /\
    snd c !! "chunk_length" = Some (VInt (len (fst c))) /\
    fst c = strip (slice text s e) /\
    0 <= s < e /\ e <= len text /\
    1 <= len (fst c) <= e - s.
Proof.
  intros Hrun Hc. unfold create_text_chunks in Hrun.
  destruct (truthy (strip text)); simpl in Hrun;
    [|injection Hrun as <-; apply elem_of_nil in Hc; contradiction].
  destruct (while_loop (length text) init text md initial_state)
    as [st|] eqn:Hloop; [|discriminate].
  simpl in Hrun. injection Hrun as <-.
  destruct (while_loop_chunks_inv init text md _ _ _ c Hloop Hc)
    as [Hnil | (it & Hit & Hkept & ->)];
    [apply elem_of_nil in Hnil; contradiction|].
  pose proof (iterations_inside init text md init_min_pos (length text)
                initial_state it ltac:(simpl; lia) Hit) as Hinside.
  destruct (chunk_end_pos_bounds init text init_min_pos init_min_le_max
              (start_pos it) Hinside) as [Hb _].
  set (e := chunk_end_pos init text (start_pos it)) in *.
  unfold emitted. fold e. simpl fst. simpl snd.
  set (chunk_text := strip (slice text (start_pos it) e)) in *.
  destruct (chunk_metadata_lookup md (chunk_index it) (start_pos it) e
              (len chunk_text) (len text)) as (_ & Hs & He & Hl & Ht).
  exists (start_pos it), e.
  repeat (split; [assumption || reflexivity || lia|]).
  assert (len chunk_text <= e - start_pos it) as Hle.
  { unfold chunk_text. etransitivity; [apply strip_len|].
    rewrite slice_len; lia. }
  split; [|exact Hle].
  unfold kept, keeps in Hkept. fold e in Hkept. fold chunk_text in Hkept.
  simpl min_chunk_size in Hkept.
  apply orb_true_iff in Hkept. destruct Hkept as [H | H];
    apply Z.geb_le in H; lia.
Qed.


(** On [gap_text]: index 1100 lies in the window [[0, 2000)], which
    trims to ten letters, ends before the end of the text and is
    dropped. *)
Lemma kept_windows_cover_text_witness :
  exists chunks s e,
    create_text_chunks init Inputs.gap_text ∅ = Some chunks /\
    (s, e) ∈ windows init Inputs.gap_text ∅ /\ s <= 1100 < e /\
    (1000 <= len (strip (slice Inputs.gap_text s e)) ->
     in_some_span chunks 1100 = true) /\
    forall s' e', (s', e') ∈ windows init Inputs.gap_text ∅ ->
      (1000 <= len (strip (slice Inputs.gap_text s' e')) ->
       exists cm,
         (strip (slice Inputs.gap_text s' e'), cm) ∈ chunks /\
         cm !! "chunk_start" = Some (VInt s') /\
         cm !! "chunk_end" = Some (VInt e')) /\
      (len (strip (slice Inputs.gap_text s' e')) < 1000 ->
       e' < len Inputs.gap_text ->
       forall c, c ∈ chunks -> snd c !! "chunk_start" <> Some (VInt s')).
Proof.
  apply (kept_windows_cover_text Inputs.gap_text ∅ 1100).
  - vm_compute. reflexivity.
  - split; [discriminate | vm_compute; reflexivity].
Defined.

(** C1 as stated fails: [gap_text] has 3000 characters, its first
    window [[0, 2000)] trims to ten letters and is dropped by the keep
    test; the chunks that are returned span [[1800, 3000)] and
    [[2800, 3000)], and none of them holds index 1100, where one of
    those letters stands. *)
Lemma dropped_window_leaves_gap :
  1000 <= len Inputs.gap_text /\
  0 <= 1100 < len Inputs.gap_text /\
  Inputs.gap_text !! 1100%nat = Some 97%N /\
  (fun chunks => (List.map chunk_span chunks, in_some_span chunks 1100))
    <$> create_text_chunks init Inputs.gap_text ∅
  = Some ([Some (1800, 3000); Some (2800, 3000)], false).
Proof.
  split; [vm_compute; discriminate|].
  split; [split; [vm_compute; discriminate | vm_compute; reflexivity]|].
  split; vm_compute; reflexivity.
Qed.

(** What the amended C1 leaves out: the last window of a text is
    lost when it begins with white space, by the slip of the keep
    test that C2 is about.  On
    [plain_text], 2249 characters of plain sentences, the one chunk
    spans [[0, 1980)]; the window from 1780 on begins with a blank and
    is not returned, and index 2000 lies in no chunk. *)
Example final_window_lost_on_plain_text :
  len MoreInputs.plain_text = 2249 /\
  windows init MoreInputs.plain_text ∅ = [(0, 1980); (1780, 2249)] /\
  MoreInputs.plain_text !! 1780%nat = Some 32%N /\
  (fun chunks => (List.map chunk_span chunks, in_some_span chunks 2000))
    <$> create_text_chunks init MoreInputs.plain_text ∅
  = Some ([Some (0, 1980)], false).
Proof.
  split; [vm_compute; reflexivity|].
  split; [vm_compute; reflexivity|].
  split; vm_compute; reflexivity.
Qed.

Lemma chunk_metadata_invariant_witness :
  exists s e,
    snd (Inputs.greeting,
         chunk_metadata ∅ 0 0 3 3 3) !! "chunk_start" = Some (VInt s) /\
    snd (Inputs.greeting,
         chunk_metadata ∅ 0 0 3 3 3) !! "chunk_end" = Some (VInt e) /\
    0 <= s < e /\ e <= len Inputs.greeting.
Proof.
  destruct (chunk_metadata_invariant Inputs.greeting ∅
              [(Inputs.greeting, chunk_metadata ∅ 0 0 3 3 3)]
              (Inputs.greeting, chunk_metadata ∅ 0 0 3 3 3))
    as (s & e & Hs & He & _ & _ & _ & Hb1 & Hb2 & _).
  - reflexivity.
  - apply list_elem_of_singleton. reflexivity.
  - exists s, e. repeat split; assumption || lia.
Defined.

(** C5 as stated fails: on 1000 letters followed by a blank the one
    chunk spans [[0, 1001)] and records [chunk_length = 1000], the
    length of its trimmed text, not [chunk_end - chunk_start]. *)
Lemma chunk_length_is_trimmed_length :
  (List.map (fun c : str * metadata =>
               (snd c !! "chunk_start", snd c !! "chunk_end",
                snd c !! "chunk_length", len (fst c))))
    <$> create_text_chunks init Inputs.padded_text ∅
  = Some [(Some (VInt 0), Some (VInt 1001), Some (VInt 1000), 1000)]
  /\ 1000 <> 1001 - 0.
Proof. split; [vm_compute; reflexivity | discriminate]. Qed.

(** C2 fails on the code: a short text with a trailing blank yields no
    chunk at all, because the keep test compares the end of the text
    with the length of the trimmed chunk. *)
Theorem short_padded_text_yields_no_chunk (md : metadata) :
  len Inputs.padded_letter < 1000 /\
  strip Inputs.padded_letter = py "a" /\
  create_text_chunks init Inputs.padded_letter md = Some [].
Proof. repeat split; reflexivity. Qed.

(** C3 fails on the code: in [adjacent_text] the window [[1800, 2000)]
    of the first iteration holds ['. '] at 1900 and ['! '] at 1902;
    the chunk ends at 1902, just after the first, although the latest
    delimiter of the window ends at 1904. *)
Theorem adjacent_delimiters_end_early :
  Z.min (0 + max_chunk_size init) (len Inputs.adjacent_text) = 2000 /\
  2000 < len Inputs.adjacent_text /\
  Z.max (0 + min_chunk_size init) (2000 - 200) = 1800 /\
  rfind Inputs.adjacent_text (py ". ") 1800 2000 = 1900 /\
  rfind Inputs.adjacent_text (py "! ") 1800 2000 = 1902 /\
  chunk_end_pos init Inputs.adjacent_text 0 = 1902.
Proof. repeat split; vm_compute; reflexivity. Qed.


(** Short-text passthrough, where it holds: a text shorter than
    [min_chunk_size] that is not empty and that trimming leaves as it
    is comes back as one chunk, the text itself, with
    [chunk_start = 0] and [chunk_end = len(text)]. *)
Theorem short_untrimmed_text_is_one_chunk (text : str) (md : metadata) :
  text <> [] -> len text < 1000 -> strip text = text ->
  create_text_chunks init text md
  = Some [(text, chunk_metadata md 0 0 (len text) (len text) (len text))].
Proof.
  intros Hne Hshort Hstrip.
  assert (0 < len text) as Hpos.
  { pose proof (len_nonneg text).
    destruct (Z.eq_dec (len text) 0) as [E | E]; [|lia].
    apply len_nil_inv in E. contradiction. }
  assert (chunk_end_pos init text 0 = len text) as Hend.
  { unfold chunk_end_pos. simpl max_chunk_size.
    replace (Z.min (0 + 2000) (len text)) with (len text) by lia.
    rewrite Z.ltb_irrefl. reflexivity. }
  unfold create_text_chunks. rewrite Hstrip.
  destruct text as [|c text']; [contradiction|]. simpl truthy. simpl negb.
  cbv iota. set (text := c :: text') in *.
  change (length text) with (S (length text')).
  rewrite while_loop_eq. simpl start_pos.
  assert ((0 <? len text) = true) as -> by (apply Z.ltb_lt; lia).
  unfold loop_body. simpl start_pos. simpl chunk_index. simpl chunks.
  rewrite Hend, slice_whole, Hstrip.
  assert (keeps init text 0 text = true) as ->.
  { unfold keeps. apply orb_true_iff. right. apply Z.geb_le. lia. }
  assert (next_start_pos init 0 (len text) = 1000) as ->.
  { unfold next_start_pos. simpl min_chunk_size. simpl overlap_size.
    replace (Z.max (0 + 1000) (len text - 200)) with 1000 by lia.
    reflexivity. }
  simpl start_pos.
  assert ((1000 >=? len text) = true) as -> by (apply Z.geb_le; lia).
  reflexivity.
Qed.

Lemma short_untrimmed_text_is_one_chunk_witness :
  create_text_chunks init Inputs.greeting ∅
  = Some [(Inputs.greeting, chunk_metadata ∅ 0 0 3 3 3)].
Proof.
  apply (short_untrimmed_text_is_one_chunk Inputs.greeting ∅);
    [discriminate | reflexivity | reflexivity].
Defined.

(** The two characters of a delimiter: a mark, then a blank or a
    line feed. *)
Lemma sentence_pattern_chars (text pattern : str) (i : Z) :
  pattern ∈ sentence_patterns -> occurs_at text pattern i = true ->
  exists mark blank,
    text !! Z.to_nat i = Some mark /\
    text !! S (Z.to_nat i) = Some blank /\
    (mark = 46 \/ mark = 33 \/ mark = 63)%N /\
    (blank = 32 \/ blank = 10)%N.
Proof.
  intros Hin Hocc. unfold occurs_at in Hocc. apply bool_decide_eq_true in Hocc.
  assert (exists mark blank, pattern = [mark; blank] /\
            (mark = 46 \/ mark = 33 \/ mark = 63)%N /\
            (blank = 32 \/ blank = 10)%N) as (mark & blank & -> & Hm & Hb).
  { unfold sentence_patterns in Hin.
    rewrite !elem_of_cons, elem_of_nil in Hin.
    repeat (destruct Hin as [-> | Hin];
            [eexists _, _; split; [reflexivity|]; split; auto|]).
    contradiction. }
  exists mark, blank. repeat split; try assumption.
  - assert ([mark; blank] !! 0%nat = Some mark) as H0 by reflexivity.
    rewrite <- Hocc in H0. rewrite lookup_take_lt in H0 by (simpl; lia).
    rewrite lookup_drop in H0. rewrite Nat.add_0_r in H0. exact H0.
  - assert ([mark; blank] !! 1%nat = Some blank) as H1 by reflexivity.
    rewrite <- Hocc in H1. rewrite lookup_take_lt in H1 by (simpl; lia).
    rewrite lookup_drop in H1. rewrite Nat.add_1_r in H1. exact H1.
Qed.

(** Sentence boundaries, as far as they hold: when the tentative end
    [start + 2000] lies before the end of the text and some delimiter
    lies inside the window [[start + 1800, start + 2000)], the chunk
    ends just after a delimiter of that window, and every delimiter
    of the window ends at or before the end of the chunk, or starts
    exactly there. *)
Theorem chunk_ends_after_a_delimiter (text : str) (start : Z) :
  0 <= start -> start + 2000 < len text ->
  (exists p i, p ∈ sentence_patterns /\ start + 1800 <= i /\
               i + 2 <= start + 2000 /\ occurs_at text p i = true) ->
  let e := chunk_end_pos init text start in
  after_delimiter text (start + 1800) (start + 2000) e /\
  forall p i, p ∈ sentence_patterns -> start + 1800 <= i ->
              i + 2 <= start + 2000 -> occurs_at text p i = true ->
              i + 2 <= e \/ i = e.
Proof.
  intros Hstart Hlong (p0 & i0 & Hp0 & Hi0 & Hi0' & Hocc0) e.
  pose proof (len_nonneg text) as Hlen.
  assert (e = find_sentence_end text (start + 1800) (start + 2000)
          /\ start + 1800 <= e) as [He Hlow].
  { unfold e, chunk_end_pos. simpl max_chunk_size. simpl min_chunk_size.
    replace (Z.min (start + 2000) (len text)) with (start + 2000) by lia.
    assert ((start + 2000 <? len text) = true) as ->
      by (apply Z.ltb_lt; lia).
    replace (Z.max (start + 1000) (start + 2000 - 200))
      with (start + 1800) by lia.
    pose proof (fold_try_pattern_upper text (start + 1800) (start + 2000)
                  sentence_patterns ltac:(lia) ltac:(lia) ltac:(auto)
                  (-1) p0 i0 Hp0 Hi0 Hi0' Hocc0) as Hup.
    fold (find_sentence_end text (start + 1800) (start + 2000)) in Hup.
    assert ((find_sentence_end text (start + 1800) (start + 2000) >? 0)
            = true) as -> by (apply Z.gtb_lt; lia).
    split; [reflexivity | lia]. }
  assert (after_delimiter text (start + 1800) (start + 2000) e) as Hafter.
  { destruct (find_sentence_end_ok text (start + 1800) (start + 2000)
                ltac:(lia) ltac:(lia)) as [Hnone | Hfound];
      rewrite <- He in *; [lia | exact Hfound]. }
  split; [exact Hafter|].
  intros p i Hp Hi Hi' Hocc.
  pose proof (fold_try_pattern_upper text (start + 1800) (start + 2000)
                sentence_patterns ltac:(lia) ltac:(lia) ltac:(auto)
                (-1) p i Hp Hi Hi' Hocc) as Hup.
  fold (find_sentence_end text (start + 1800) (start + 2000)) in Hup.
  rewrite <- He in Hup.
  destruct (Z.eq_dec i (e - 1)) as [-> | Hne]; [exfalso | lia].
  destruct Hafter as (q & Hq & _ & _ & Hoccq).
  destruct (sentence_pattern_chars text q (e - 2) Hq Hoccq)
    as (_ & blank & _ & Hblank & _ & Hb).
  destruct (sentence_pattern_chars text p (e - 1) Hp Hocc)
    as (mark & _ & Hmark & _ & Hm & _).
  replace (S (Z.to_nat (e - 2))) with (Z.to_nat (e - 1)) in Hblank by lia.
  rewrite Hmark in Hblank. injection Hblank as <-.
  destruct Hm as [-> | [-> | ->]]; destruct Hb as [? | ?]; discriminate.
Qed.

Lemma chunk_ends_after_a_delimiter_witness :
  after_delimiter Inputs.test_text (0 + 1800) (0 + 2000)
    (chunk_end_pos init Inputs.test_text 0).
Proof.
  apply (chunk_ends_after_a_delimiter Inputs.test_text 0).
  - discriminate.
  - vm_compute. reflexivity.
  - exists (py ". "), 1998. split; [apply elem_of_cons; now left|].
    split; [discriminate|]. split; [discriminate|].
    vm_compute. reflexivity.
Defined.

End ChunkerProps.

(* ===================================================================== *)
(** ** Facts about [EmbeddingService] *)
(* ===================================================================== *)

Module EmbeddingsProps.
Import PyStr PyStrFacts Py Embeddings.

Section Service.
Context `{Env}.

Lemma truthy_false_iff (s : str) : truthy s = false <-> s = [].
Proof. destruct s; simpl; split; congruence. Qed.

Lemma truthy_true_iff (s : str) : truthy s = true <-> s <> [].
Proof. destruct s; simpl; split; congruence. Qed.

Lemma filter_nonblank_nil (texts : list str) :
  List.filter (fun text => truthy (strip text)) texts = []
  <-> Forall blank texts.
Proof.
  induction texts as [|t ts IH]; simpl.
  - split; [constructor | reflexivity].
  - destruct (truthy (strip t)) eqn:E.
    + split; [discriminate|]. intros Hall. inversion Hall as [|? ? Hb _]; subst.
      apply truthy_true_iff in E. contradiction.
    + rewrite IH. apply truthy_false_iff in E.
      split; [intros Hall; constructor; assumption|].
      intros Hall. inversion Hall; assumption.
Qed.

(** [_get_model] raises nothing but what the library raised. *)
Lemma _get_model_result (s : state) :
  (exists model s', _get_model s = (inr model, s')
                    /\ _model (fst s') = Some model)
  \/ (exists e s', _get_model s = (inl (Raised e), s')).
Proof.
  destruct s as [self w]. unfold _get_model.
  destruct (_model self) as [model|] eqn:E.
  - left. eexists _, _. split; [reflexivity | exact E].
  - destruct (new_SentenceTransformer (model_name self) w) as [[e | model] w'].
    + right. eexists _, _. reflexivity.
    + left. eexists _, _. split; reflexivity.
Qed.

Lemma lib_result {A} (f : World -> (exn + A) * World) (s : state) :
  (exists a w, f (snd s) = (inr a, w) /\ lib f s = (inr a, (fst s, w)))
  \/ (exists e w, f (snd s) = (inl e, w)
                  /\ lib f s = (inl (Raised e), (fst s, w))).
Proof.
  unfold lib, call. destruct (f (snd s)) as [[e | a] w].
  - right. eexists _, _. split; reflexivity.
  - left. eexists _, _. split; reflexivity.
Qed.

(** What [generate_embeddings] does with a list that has a text
    worth encoding. *)
Lemma generate_embeddings_valid (texts : list str) (s : state) :
  List.filter (fun text => truthy (strip text)) texts <> [] ->
  generate_embeddings texts s =
  bind _get_model
    (fun model =>
       bind (lib (encode model
                    (List.filter (fun text => truthy (strip text)) texts)))
         (fun embeddings => ret (List.map tolist embeddings))) s.
Proof.
  intros Hvalid. unfold generate_embeddings.
  destruct texts as [|t ts]; [contradiction|].
  destruct (List.filter _ (t :: ts)); [contradiction | reflexivity].
Qed.

(** C7.  [generate_embedding] raises [EmptyInput] exactly for a blank
    text.  On a list that is not empty, [generate_embeddings] raises
    [AllInputsEmpty] exactly when every entry is blank; otherwise it
    raises only what the library raised, and when it returns, the
    encoder was given the entries that are not blank, in their order,
    and the result holds the rows the encoder gave back, one per such
    entry. *)
Theorem embedding_empty_input_errors :
  one_row_per_text ->
  (forall text s,
     fst (generate_embedding text s) = inl EmptyInput <-> blank text) /\
  (forall texts s, texts <> [] ->
     let valid_texts :=
       List.filter (fun text => truthy (strip text)) texts in
     (fst (generate_embeddings texts s) = inl AllInputsEmpty
      <-> Forall blank texts) /\
     (~ Forall blank texts ->
      (exists e, fst (generate_embeddings texts s) = inl (Raised e)) \/
      (exists vectors, fst (generate_embeddings texts s) = inr vectors)) /\
     (forall vectors s',
        generate_embeddings texts s = (inr vectors, s') ->
        exists model w rows,
          encode model valid_texts w = (inr rows, snd s') /\
          vectors = List.map tolist rows /\
          length vectors = length valid_texts)).
Proof.
  intros Hrows. split.
  - intros text s. unfold generate_embedding, blank.
    destruct (truthy (strip text)) eqn:E; simpl.
    + apply truthy_true_iff in E. split; [|contradiction].
      intros Hfail. exfalso. revert Hfail. unfold bind.
      destruct (_get_model_result s)
        as [(model & s1 & -> & _) | (e & s1 & ->)]; [|discriminate].
      destruct (lib_result (encode model [text]) s1)
        as [(rows & w & _ & ->) | (e & w & _ & ->)]; [|discriminate].
      destruct rows; discriminate.
    + apply truthy_false_iff in E. split; [auto | reflexivity].
  - intros texts s Hne valid_texts.
    destruct (list_eq_dec valid_texts []) as [Hnil | Hvalid].
    + (* every entry is blank *)
      pose proof Hnil as Hall. apply filter_nonblank_nil in Hall.
      assert (generate_embeddings texts s = (inl AllInputsEmpty, s)) as Hrun.
      { unfold generate_embeddings. destruct texts; [contradiction|].
        fold valid_texts. rewrite Hnil. reflexivity. }
      rewrite Hrun. split; [split; auto|].
      split; [intros Hnot; contradiction | discriminate].
    + assert (~ Forall blank texts) as Hnot
        by (intros Hall; apply filter_nonblank_nil in Hall; contradiction).
      rewrite (generate_embeddings_valid texts s Hvalid). fold valid_texts.
      unfold bind.
      destruct (_get_model_result s)
        as [(model & s1 & -> & _) | (e & s1 & ->)].
      * destruct (lib_result (encode model valid_texts) s1)
          as [(rows & w & Henc & ->) | (e & w & _ & ->)].
        -- split; [split; [discriminate | contradiction]|].
           split; [intros _; right; eexists; reflexivity|].
           intros vectors s' Heq. unfold ret in Heq.
           injection Heq as <- <-.
           exists model, (snd s1), rows. split; [exact Henc|].
           split; [reflexivity|].
           rewrite length_map. eapply Hrows. exact Henc.
        -- split; [split; [discriminate | contradiction]|].
           split; [intros _; left; eexists; reflexivity | discriminate].
      * split; [split; [discriminate | contradiction]|].
        split; [intros _; left; eexists; reflexivity | discriminate].
Qed.

(** C10.  On the empty list [generate_embeddings] returns the empty
    list and leaves the service and the world as they were: nothing
    is raised and the encoder is neither loaded nor called.
    [AllInputsEmpty] is raised only for a list that is not empty and
    whose entries are all blank. *)
Theorem generate_embeddings_empty_list :
  (forall s, generate_embeddings [] s = (inr [], s)) /\
  (forall texts s,
     fst (generate_embeddings texts s) = inl AllInputsEmpty ->
     texts <> [] /\ Forall blank texts).
Proof.
  split; [reflexivity|].
  intros texts s Hfail. destruct texts as [|t ts]; [discriminate|].
  split; [discriminate|].
  apply filter_nonblank_nil.
  destruct (list_eq_dec
              (List.filter (fun text => truthy (strip text)) (t :: ts)) [])
    as [Hnil | Hvalid]; [exact Hnil | exfalso].
  rewrite (generate_embeddings_valid (t :: ts) s Hvalid) in Hfail.
  unfold bind in Hfail.
  destruct (_get_model_result s)
    as [(model & s1 & Hm & _) | (e & s1 & Hm)];
    rewrite Hm in Hfail; [|discriminate].
  destruct (lib_result (encode model
              (List.filter (fun text => truthy (strip text)) (t :: ts))) s1)
    as [(rows & w & _ & Hl) | (e & w & _ & Hl)];
    rewrite Hl in Hfail; discriminate.
Qed.

End Service.

Lemma embedding_empty_input_errors_witness :
  @one_row_per_text TestEnv.env /\
  (fst (@generate_embedding TestEnv.env (py "  ") TestEnv.new_service)
   = inl (@EmptyInput TestEnv.env)
   <-> blank (py "  ")).
Proof.
  assert (@one_row_per_text TestEnv.env) as Hrows.
  { intros model texts w rows w' Henc. simpl in Henc.
    injection Henc as <- _. apply length_map. }
  split; [exact Hrows|].
  apply (proj1 (@embedding_empty_input_errors TestEnv.env Hrows)).
Defined.

End EmbeddingsProps.

(* ===================================================================== *)
(** ** Facts about [VectorDBService] *)
(* ===================================================================== *)

Module VectorDBProps.
Import PyStr Py VectorDB.

Section Service.
Context `{Env}.

Lemma bind_from_library {S A B} (c : M S A) (k : A -> M S B) (s : S) :
  from_library (fst (c s)) ->
  (forall a s', from_library (fst (k a s'))) ->
  from_library (fst (bind c k s)).
Proof.
  intros Hc Hk. unfold bind. destruct (c s) as [[e | a] s'].
  - exact Hc.
  - apply Hk.
Qed.

Lemma call_from_library {S A} (get : S -> World) (set : World -> S -> S)
    (f : World -> (exn + A) * World) (s : S) :
  from_library (fst (call get set f s)).
Proof. unfold call. destruct (f (get s)) as [[e | a] w]; exact I. Qed.

Lemma _get_client_from_library (s : state) :
  from_library (fst (_get_client s)).
Proof.
  destruct s as [self p]. unfold _get_client.
  destruct (_client self); [exact I|].
  destruct (PersistentClient _ _) as [[e | client] w]; exact I.
Qed.

Lemma _get_collection_from_library (s : state) :
  from_library (fst (_get_collection s)).
Proof.
  unfold _get_collection. destruct (_collection (fst s)); [exact I|].
  apply bind_from_library; [apply _get_client_from_library|].
  intros client s1. apply bind_from_library.
  { destruct s1 as [self p]. unfold get_embedding_service.
    destruct (_embedding_service p); exact I. }
  intros _ s2. apply bind_from_library.
  { unfold try_except.
    destruct (lib (client_get_collection client (collection_name (fst s2)))
                s2) as [[e | c] s3]; [|exact I].
    apply call_from_library. }
  intros collection s3. apply bind_from_library.
  { destruct s3 as [self p]. exact I. }
  intros _ s4. exact I.
Qed.

(** [fresh_ids] calls [uuid4] once per chunk: the id at index [i] is
    what the call after [i] earlier ones answers. *)
Lemma fresh_ids_spec {A} (chunks : list A) (w : World) :
  length (fst (fresh_ids chunks w)) = length chunks /\
  forall i, (i < length chunks)%nat ->
    fst (fresh_ids chunks w) !! i
    = Some (fst (uuid4 (Nat.iter i (fun w => snd (uuid4 w)) w))).
Proof.
  revert w. induction chunks as [|c chunks IH]; intros w; simpl.
  - split; [reflexivity | intros i Hi; lia].
  - destruct (uuid4 w) as [id w1] eqn:E1.
    destruct (fresh_ids chunks w1) as [ids w2] eqn:E2.
    destruct (IH w1) as [IHlen IHnth]. rewrite E2 in IHlen, IHnth.
    simpl in *. split; [lia|].
    intros [|i] Hi; simpl.
    + rewrite E1. reflexivity.
    + rewrite IHnth by lia. f_equal. f_equal. f_equal.
      change (snd (uuid4 (Nat.iter i (fun w => snd (uuid4 w)) w)))
        with (Nat.iter (S i) (fun w => snd (uuid4 w)) w).
      rewrite Nat.iter_succ_r. rewrite E1. reflexivity.
Qed.

Lemma fresh_ids_NoDup {A} (chunks : list A) (w : World) :
  uuid4_never_repeats -> NoDup (fst (fresh_ids chunks w)).
Proof.
  intros Hfresh. destruct (fresh_ids_spec chunks w) as [Hlen Hnth].
  apply NoDup_alt. intros i j id Hi Hj.
  assert (i < length chunks)%nat as Hi'
    by (rewrite <- Hlen; eapply lookup_lt_Some; exact Hi).
  assert (j < length chunks)%nat as Hj'
    by (rewrite <- Hlen; eapply lookup_lt_Some; exact Hj).
  rewrite Hnth in Hi by assumption. rewrite Hnth in Hj by assumption.
  destruct (Nat.eq_dec i j) as [Heq | Hne]; [exact Heq | exfalso].
  apply (Hfresh w i j Hne). congruence.
Qed.

(** What [generate_embeddings] raises: [AllInputsEmpty], on a list
    that is not empty and has only blank entries, before anything is
    done; or what a library raised. *)
Lemma generate_embeddings_raises (texts : list str)
    (s s' : Embeddings.state) (e : error) :
  Embeddings.generate_embeddings texts s = (inl e, s') ->
  (e = AllInputsEmpty /\ texts <> [] /\ s' = s /\
   List.filter (fun text => truthy (strip text)) texts = [])
  \/ (exists x, e = Raised x /\
      List.filter (fun text => truthy (strip text)) texts <> []).
Proof.
  unfold Embeddings.generate_embeddings.
  destruct texts as [|t ts]; [discriminate|].
  destruct (List.filter _ (t :: ts)) as [|v vs] eqn:Hvalid.
  - intros Heq. injection Heq as <- <-. left. repeat split. discriminate.
  - intros Hrun. right. unfold bind in Hrun.
    destruct (EmbeddingsProps._get_model_result s)
      as [(model & s1 & Hget & _) | (x & s1 & Hget)];
      rewrite Hget in Hrun;
      [|injection Hrun as <- _; exists x; split; [reflexivity | discriminate]].
    destruct (EmbeddingsProps.lib_result (encode model (v :: vs)) s1)
      as [(rows & w & _ & Hcall) | (x & w & _ & Hcall)];
      rewrite Hcall in Hrun; [discriminate|].
    injection Hrun as <- _. exists x. split; [reflexivity | discriminate].
Qed.

(** A call on the embedding service of the process leaves [self] and
    the vector store service of the process as they are. *)
Lemma on_embedding_service_keeps {A} (method : M Embeddings.state A)
    (s s' : state) (r : error + A) :
  on_embedding_service method s = (r, s') ->
  fst s' = fst s /\
  _vector_db_service (snd s') = _vector_db_service (snd s) /\
  exists service service',
    _embedding_service (snd s') = Some service' /\
    method (service, world (snd s)) = (r, (service', world (snd s'))) /\
    (_embedding_service (snd s) = None ->
     service = Embeddings.init Embeddings.default_model_name) /\
    (forall service0, _embedding_service (snd s) = Some service0 ->
                      service = service0).
Proof.
  destruct s as [self p]. unfold on_embedding_service, bind.
  unfold get_embedding_service.
  destruct (_embedding_service p) as [service0|] eqn:Hglobal.
  - destruct (method (service0, world p)) as [r0 [service' w]] eqn:Hcall.
    intros Heq. injection Heq as <- <-. simpl.
    split; [reflexivity|]. split; [reflexivity|].
    exists service0, service'.
    split; [reflexivity|]. split; [exact Hcall|].
    split; [intros Hnone | intros service1 Hsome]; congruence.
  - simpl.
    destruct (method (Embeddings.init Embeddings.default_model_name,
                      world p)) as [r0 [service' w]] eqn:Hcall.
    intros Heq. injection Heq as <- <-. simpl.
    split; [reflexivity|]. split; [reflexivity|].
    exists (Embeddings.init Embeddings.default_model_name), service'.
    split; [reflexivity|]. split; [exact Hcall|].
    split; [reflexivity | intros service1 Hsome; congruence].
Qed.

(** What the function bound to the collection raises is
    [AllInputsEmpty] or what a library raised. *)
Lemma CustomEmbeddingFunction_raises (input : list str) (s s' : state)
    (e : error) :
  CustomEmbeddingFunction input s = (inl e, s') ->
  (e = AllInputsEmpty /\ input <> [] /\
   List.filter (fun text => truthy (strip text)) input = [])
  \/ (exists x, e = Raised x /\
      List.filter (fun text => truthy (strip text)) input <> []).
Proof.
  intros Hrun. unfold CustomEmbeddingFunction in Hrun.
  apply on_embedding_service_keeps in Hrun
    as (_ & _ & service & service' & _ & Hcall & _).
  apply generate_embeddings_raises in Hcall
    as [(-> & Hne & _ & Hblank) | (x & -> & Hvalid)].
  - left. repeat split; assumption.
  - right. exists x. split; [reflexivity | exact Hvalid].
Qed.

(** [add_document_chunks] on lists of one length, call by call. *)
Lemma add_document_chunks_eq (chunks : list str)
    (metadata_list : list metadata) (s : state) :
  length chunks = length metadata_list ->
  add_document_chunks chunks metadata_list s =
  match _get_collection s with
  | (inl e, s1) => (inl e, s1)
  | (inr collection, s1) =>
      let doc_ids := fst (fresh_ids chunks (world (snd s1))) in
      let w1 := snd (fresh_ids chunks (world (snd s1))) in
      match CustomEmbeddingFunction chunks
              (fst s1, set_world w1 (snd s1)) with
      | (inl e, s2) => (inl e, s2)
      | (inr embeddings, s2) =>
          match collection_add collection chunks metadata_list doc_ids
                  embeddings (world (snd s2)) with
          | (inl e, w) => (inl (Raised e), (fst s2, set_world w (snd s2)))
          | (inr _, w) => (inr doc_ids, (fst s2, set_world w (snd s2)))
          end
      end
  end.
Proof.
  intros Hlen. unfold add_document_chunks.
  rewrite (proj2 (Nat.eqb_eq _ _) Hlen). simpl. unfold bind at 1.
  destruct (_get_collection s) as [[e | collection] s1]; [reflexivity|].
  unfold bind at 1. unfold lib at 1, call at 1. cbv beta.
  destruct (fresh_ids chunks (world (snd s1))) as [ids w1]. simpl.
  unfold bind at 1. unfold collection_add_documents, bind at 1.
  destruct (CustomEmbeddingFunction chunks (fst s1, set_world w1 (snd s1)))
    as [[e | embeddings] s2]; [reflexivity|].
  unfold lib, call.
  destruct (collection_add collection chunks metadata_list ids embeddings
              (world (snd s2))) as [[e | []] w]; reflexivity.
Qed.

(** C6.  [add_document_chunks] raises [LengthMismatch] exactly when
    the two lists differ in length, and then the service and the
    process, the store included, are as before the call.  When the
    lengths agree, the collection is obtained, and the embedding of
    the chunks and the store of Chroma succeed, the call returns the
    ids.  When the call returns, it returns one id per chunk, in
    order: the id at index [i] is the answer of the [uuid4] call
    number [i] made after the collection was obtained (so the ids
    differ from each other if the generator never repeats), and
    these are the ids that were handed to [collection.add] with the
    chunks and the metadata. *)
Theorem add_document_chunks_length_check (chunks : list str)
    (metadata_list : list metadata) (s : state) :
  (fst (add_document_chunks chunks metadata_list s) = inl LengthMismatch
   <-> length chunks <> length metadata_list) /\
  (length chunks <> length metadata_list ->
   add_document_chunks chunks metadata_list s = (inl LengthMismatch, s)) /\
  (length chunks = length metadata_list ->
   forall collection s1 embeddings s2 w,
     _get_collection s = (inr collection, s1) ->
     CustomEmbeddingFunction chunks
       (fst s1, set_world (snd (fresh_ids chunks (world (snd s1)))) (snd s1))
     = (inr embeddings, s2) ->
     collection_add collection chunks metadata_list
       (fst (fresh_ids chunks (world (snd s1)))) embeddings (world (snd s2))
     = (inr tt, w) ->
     add_document_chunks chunks metadata_list s
     = (inr (fst (fresh_ids chunks (world (snd s1)))),
        (fst s2, set_world w (snd s2)))) /\
  (forall doc_ids s',
     add_document_chunks chunks metadata_list s = (inr doc_ids, s') ->
     length doc_ids = length chunks /\
     exists collection s1 embeddings s2,
       _get_collection s = (inr collection, s1) /\
       doc_ids = fst (fresh_ids chunks (world (snd s1))) /\
       (forall i, (i < length chunks)%nat ->
          doc_ids !! i
          = Some (fst (uuid4 (Nat.iter i (fun w => snd (uuid4 w))
                                (world (snd s1)))))) /\
       (uuid4_never_repeats -> NoDup doc_ids) /\
       CustomEmbeddingFunction chunks
         (fst s1,
          set_world (snd (fresh_ids chunks (world (snd s1)))) (snd s1))
       = (inr embeddings, s2) /\
       collection_add collection chunks metadata_list doc_ids embeddings
         (world (snd s2))
       = (inr tt, world (snd s'))).
Proof.
  destruct (Nat.eq_dec (length chunks) (length metadata_list)) as [E | E].
  - rewrite (add_document_chunks_eq chunks metadata_list s E).
    pose proof (_get_collection_from_library s) as Hlib.
    destruct (_get_collection s) as [[e | collection] s1].
    { split; [|split; [contradiction|]].
      - split; [|contradiction]. simpl. intros Heq. injection Heq as ->.
        contradiction.
      - split; [intros _ ? ? ? ? ? Hget | intros ? ? Hrun]; discriminate. }
    clear Hlib. cbv zeta.
    destruct (fresh_ids_spec chunks (world (snd s1))) as [Hlen Hnth].
    pose proof (fresh_ids_NoDup chunks (world (snd s1))) as Hnodup.
    set (ids := fst (fresh_ids chunks (world (snd s1)))) in *.
    set (w1 := snd (fresh_ids chunks (world (snd s1)))) in *.
    destruct (CustomEmbeddingFunction chunks (fst s1, set_world w1 (snd s1)))
      as [[e | embeddings] s2] eqn:Eembed.
    { split; [|split; [contradiction|]].
      - split; [|contradiction]. simpl. intros Heq. injection Heq as ->.
        apply CustomEmbeddingFunction_raises in Eembed
          as [(Hblank & _) | (x & Hx & _)]; discriminate.
      - split; [|intros ? ? Hrun; discriminate].
        intros _ ? ? ? ? ? Hget. injection Hget as <- <-.
        intros Hembed. unfold w1 in Eembed. congruence. }
    destruct (collection_add collection chunks metadata_list ids embeddings
                (world (snd s2))) as [[e | []] w2] eqn:Eadd.
    { split; [split; [discriminate | contradiction]|].
      split; [contradiction|]. split; [|intros ? ? Hrun; discriminate].
      intros _ ? ? ? ? ? Hget. injection Hget as <- <-.
      unfold ids, w1 in *. rewrite Eembed.
      intros Hembed. injection Hembed as <- <-. rewrite Eadd. discriminate. }
    split; [split; [discriminate | contradiction]|].
    split; [contradiction|]. split.
    + intros _ ? ? ? ? ? Hget. injection Hget as <- <-.
      unfold ids, w1 in *. rewrite Eembed.
      intros Hembed. injection Hembed as <- <-. rewrite Eadd.
      intros Heq. injection Heq as <-. reflexivity.
    + intros doc_ids s' Heq. injection Heq as <- <-.
      split; [exact Hlen|].
      exists collection, s1, embeddings, s2.
      repeat split; assumption || reflexivity.
  - unfold add_document_chunks.
    rewrite (proj2 (Nat.eqb_neq _ _) E). simpl.
    split; [split; auto|]. split; [reflexivity|].
    split; [contradiction | discriminate].
Qed.

End Service.

(** Two chunks on a new service in a new process: the collection is
    obtained, the chunks are embedded and stored, and the call
    returns the first two ids of the generator. *)
Lemma add_document_chunks_length_check_witness :
  fst (@add_document_chunks TestEnv.env [Inputs.greeting; Inputs.greeting]
         [∅; ∅] (MoreInputs.new_vector_service, TestEnv.fresh_process))
  = inr ["u0"; "u1"].
Proof.
  erewrite (proj1 (proj2 (proj2
              (@add_document_chunks_length_check TestEnv.env
                 [Inputs.greeting; Inputs.greeting] [∅; ∅]
                 (MoreInputs.new_vector_service, TestEnv.fresh_process))))
              eq_refl);
    [idtac | reflexivity | reflexivity | reflexivity].
  reflexivity.
Defined.

End VectorDBProps.

(* ===================================================================== *)
(** ** Facts about batch ingestion *)
(* ===================================================================== *)

Module IngestionProps.
Import PyStr Py Chunker ChunkerProps Ingestion.

Section Service.
Context `{Env}.

Abbreviation process := VectorDB.process.





Abbreviation results_map := (gmap (option string) (list string)).

Lemma batch_loop_app (l1 l2 : list config) (results : results_map)
    (p : process) :
  batch_loop init (l1 ++ l2) results p =
  match batch_loop init l1 results p with
  | Some (results1, p1) => batch_loop init l2 results1 p1
  | None => None
  end.
Proof.
  revert results p. induction l1 as [|c l1 IH]; intros results p; simpl.
  - reflexivity.
  - destruct (ingest_config init c p) as [[doc_ids p']|]; [apply IH | reflexivity].
Qed.



End Service.


(** What the four configs come to: the two that failed map to the
    empty list, the two after them to the id of their chunk. *)
Example batch_of_four_configs :
  (fun r => (size (fst r),
             fst r !! Some "a.pdf", fst r !! Some "missing.pdf",
             fst r !! Some "b.pdf", fst r !! Some "c.pdf"))
    <$> @batch_ingest_datasheets TestEnv.env init TestEnv.four_configs
          TestEnv.fresh_process
  = Some (4%nat, Some [], Some [], Some ["u0"], Some ["u1"]).
Proof. vm_compute. reflexivity. Qed.


End IngestionProps.

(* ===================================================================== *)
(** ** Facts about the threads of [_get_model] *)
(* ===================================================================== *)

Module LazyInitProps.
Import LazyInit.

Section Threads.
Context `{Env}.

Lemma initial_invariant (name : string) (n : nat) (w : World) :
  invariant (initial name n w).
Proof.
  split; simpl.
  - intros i c Hc. apply lookup_replicate in Hc as [-> _].
    simpl. split; [contradiction | discriminate].
  - intros _. split.
    + intros i c Hc. apply lookup_replicate in Hc as [-> _]. simpl. auto.
    + left. split; [reflexivity|].
      intros i c Hc. apply lookup_replicate in Hc as [-> _]. simpl. auto.
  - discriminate.
Qed.

(** The place of thread [j] after thread [i] moved to [c]. *)
Lemma lookup_goto (i j : nat) (c c' : pc) (s : system) :
  threads (goto i c s) !! j = Some c' <->
  (i = j /\ c = c' /\ (j < length (threads s))%nat)
  \/ (i <> j /\ threads s !! j = Some c').
Proof. unfold goto. simpl. apply list_lookup_insert_Some. Qed.

(** Two threads inside the [with] block are one thread. *)
Lemma inside_unique (s : system) (i j : nat) (c c' : pc) :
  invariant s -> threads s !! i = Some c -> threads s !! j = Some c' ->
  inside c -> inside c' -> i = j.
Proof.
  intros Hinv Hi Hj Hc Hc'.
  apply (inv_lock s Hinv i c Hi) in Hc.
  apply (inv_lock s Hinv j c' Hj) in Hc'. congruence.
Qed.


(** Splits a fact about the place of a thread after [goto] into the
    thread that moved and the others. *)
Ltac moved H Hne :=
  apply lookup_goto in H; simpl in H;
  destruct H as [(<- & <- & _) | (Hne & H)].

Lemma step_thread_invariant (i : nat) (s s' : system) :
  invariant s -> step_thread i s = Some s' -> invariant s'.
Proof.
  intros Hinv Hstep. unfold step_thread in Hstep.
  destruct (threads s !! i) as [c|] eqn:Hi; [|discriminate].
  pose proof (inv_lock s Hinv) as Hlock.
  pose proof (inv_unset s Hinv) as Hunset.
  pose proof (inv_set s Hinv) as Hset.
  pose proof (Hlock i c Hi) as Hlock_i.
  destruct c; simpl in Hlock_i.
  - (* AtTest *)
    injection Hstep as <-. split; simpl.
    + intros j c Hj. moved Hj Hne; [|auto].
      destruct (_model s); simpl; exact Hlock_i.
    + intros Hnone. rewrite Hnone in *.
      destruct (Hunset eq_refl) as [Hpast Hmade]. split.
      * intros j c Hj. moved Hj Hne; [simpl; auto | eauto].
      * destruct Hmade as [[Hnil Hno] | (k & model & Hk & Hmade)].
        -- left. split; [exact Hnil|].
           intros j c Hj. moved Hj Hne; [simpl; auto | eauto].
        -- right. exists k, model. split; [|exact Hmade].
           apply lookup_goto. right. split; [congruence | exact Hk].
    + intros model Hmodel. rewrite Hmodel in *.
      destruct (Hset model eq_refl) as [Hmade Hall].
      split; [exact Hmade|].
      intros j c Hj. moved Hj Hne; [|eauto].
      simpl. repeat split; auto; discriminate.
  - (* AtAcquire *)
    destruct (_lock s) as [holder|] eqn:Hholder; [discriminate|].
    injection Hstep as <-. split; simpl.
    + intros j c Hj. moved Hj Hne; [simpl; tauto|].
      split.
      * intros Hin. apply (Hlock j c Hj) in Hin. congruence.
      * intros Heq. congruence.
    + intros Hnone. destruct (Hunset Hnone) as [Hpast Hmade]. split.
      * intros j c Hj. moved Hj Hne; [simpl; auto | eauto].
      * destruct Hmade as [[Hnil Hno] | (k & model & Hk & Hmade)].
        -- left. split; [exact Hnil|].
           intros j c Hj. moved Hj Hne; [simpl; auto | eauto].
        -- right. exists k, model. split; [|exact Hmade].
           apply lookup_goto. right. split; [congruence | exact Hk].
    + intros model Hmodel.
      destruct (Hset model Hmodel) as [Hmade Hall].
      split; [exact Hmade|].
      intros j c Hj. moved Hj Hne; [|eauto].
      simpl. repeat split; auto; discriminate.
  - (* AtTestLocked *)
    injection Hstep as <-. split; simpl.
    + intros j c Hj. moved Hj Hne; [|auto].
      destruct (_model s); simpl; exact Hlock_i.
    + intros Hnone. rewrite Hnone in *.
      destruct (Hunset eq_refl) as [Hpast Hmade]. split.
      * intros j c Hj. moved Hj Hne; [simpl; auto | eauto].
      * destruct Hmade as [[Hnil Hno] | (k & model & Hk & Hmade)].
        -- left. split; [exact Hnil|].
           intros j c Hj. moved Hj Hne; [simpl; auto | eauto].
        -- right. exists k, model. split; [|exact Hmade].
           apply lookup_goto. right. split; [congruence | exact Hk].
    + intros model Hmodel. rewrite Hmodel in *.
      destruct (Hset model eq_refl) as [Hmade Hall].
      split; [exact Hmade|].
      intros j c Hj. moved Hj Hne; [|eauto].
      simpl. repeat split; auto; discriminate.
  - (* AtConstruct *)
    assert (_model s = None) as Hnone.
    { destruct (_model s) as [model|] eqn:Hmodel; [|reflexivity].
      destruct (Hset model eq_refl) as [_ Hall].
      destruct (Hall i AtConstruct Hi) as [Hno _]. contradiction. }
    destruct (Hunset Hnone) as [Hpast Hmade].
    assert (constructed s = [] /\
            forall j c, threads s !! j = Some c -> ~ assigning c)
      as [Hnil Hno].
    { destruct Hmade as [Hmade | (k & model & Hk & _)]; [exact Hmade|].
      exfalso.
      assert (i = k) as ->
        by (eapply (inside_unique s); eauto; exact I).
      congruence. }
    destruct (new_SentenceTransformer (model_name s) (world s))
      as [[e | model] w]; injection Hstep as <-; split; simpl.
    + intros j c Hj. moved Hj Hne; [simpl; exact Hlock_i | auto].
    + intros _. split.
      * intros j c Hj. moved Hj Hne; [simpl; auto | eauto].
      * left. split; [exact Hnil|].
        intros j c Hj. moved Hj Hne; [simpl; auto | eauto].
    + intros model Hmodel. congruence.
    + intros j c Hj. moved Hj Hne; [simpl; exact Hlock_i | auto].
    + intros _. split.
      * intros j c Hj. moved Hj Hne; [simpl; auto | eauto].
      * right. exists i, model. split; [|rewrite Hnil; reflexivity].
        apply lookup_goto. left. simpl.
        repeat split. eapply lookup_lt_Some. exact Hi.
    + intros model' Hmodel. congruence.
  - (* AtAssign *)
    assert (_model s = None) as Hnone.
    { destruct (_model s) as [model'|] eqn:Hmodel; [|reflexivity].
      destruct (Hset model' eq_refl) as [_ Hall].
      destruct (Hall i (AtAssign model) Hi) as (_ & Hno & _).
      exfalso. apply Hno. exact I. }
    destruct (Hunset Hnone) as [Hpast Hmade].
    assert (constructed s = [model]) as Hone.
    { destruct Hmade as [[_ Hno] | (k & model' & Hk & Hmade)].
      - exfalso. apply (Hno i (AtAssign model) Hi). exact I.
      - assert (i = k) as ->
          by (eapply (inside_unique s); eauto; exact I).
        congruence. }
    injection Hstep as <-. split; simpl.
    + intros j c Hj. moved Hj Hne; [simpl; exact Hlock_i | auto].
    + discriminate.
    + intros model' Hmodel. injection Hmodel as <-.
      split; [exact Hone|].
      intros j c Hj. moved Hj Hne.
      * simpl. repeat split; auto; discriminate.
      * assert (~ inside c) as Hout.
        { intros Hin. apply Hne.
          eapply (inside_unique s); eauto. exact I. }
        repeat split.
        -- intros ->. apply Hout. exact I.
        -- intros Has. apply Hout. destruct c; solve [contradiction | exact I].
        -- intros r ->. exfalso. apply (Hpast j (Returned r) Hj). exact I.
  - (* AtRelease *)
    injection Hstep as <-. split; simpl.
    + intros j c Hj. moved Hj Hne; [simpl; split; [tauto | discriminate]|].
      split; [|discriminate].
      intros Hin. exfalso. apply Hne.
      eapply (inside_unique s); eauto. exact I.
    + intros Hnone. exfalso.
      destruct (Hunset Hnone) as [Hpast _].
      apply (Hpast i AtRelease Hi). exact I.
    + intros model Hmodel.
      destruct (Hset model Hmodel) as [Hmade Hall].
      split; [exact Hmade|].
      intros j c Hj. moved Hj Hne; [|eauto].
      simpl. repeat split; auto; discriminate.
  - (* AtReleaseRaising *)
    injection Hstep as <-. split; simpl.
    + intros j c Hj. moved Hj Hne; [simpl; split; [tauto | discriminate]|].
      split; [|discriminate].
      intros Hin. exfalso. apply Hne.
      eapply (inside_unique s); eauto. exact I.
    + intros Hnone. destruct (Hunset Hnone) as [Hpast Hmade]. split.
      * intros j c Hj. moved Hj Hne; [simpl; auto | eauto].
      * destruct Hmade as [[Hnil Hno] | (k & model & Hk & Hmade)].
        -- left. split; [exact Hnil|].
           intros j c Hj. moved Hj Hne; [simpl; auto | eauto].
        -- right. exists k, model. split; [|exact Hmade].
           apply lookup_goto. right. split; [congruence | exact Hk].
    + intros model Hmodel.
      destruct (Hset model Hmodel) as [Hmade Hall].
      split; [exact Hmade|].
      intros j c Hj. moved Hj Hne; [|eauto].
      simpl. repeat split; auto; discriminate.
  - (* AtReturn *)
    injection Hstep as <-. split; simpl.
    + intros j c Hj. moved Hj Hne; [simpl; exact Hlock_i | auto].
    + intros Hnone. exfalso.
      destruct (Hunset Hnone) as [Hpast _].
      apply (Hpast i AtReturn Hi). exact I.
    + intros model Hmodel.
      destruct (Hset model Hmodel) as [Hmade Hall].
      split; [exact Hmade|].
      intros j c Hj. moved Hj Hne; [|eauto].
      simpl. repeat split; auto; try discriminate.
      intros r Hr. injection Hr as <-. exact Hmodel.
  - discriminate.
  - discriminate.
Qed.

Lemma reachable_invariant (name : string) (n : nat) (w : World)
    (s : system) :
  reachable name n w s -> invariant s.
Proof.
  unfold reachable. intros Hreach.
  refine (rtc_ind_r invariant (initial name n w) _ _ s Hreach).
  - apply initial_invariant.
  - intros s1 s2 _ [i Hstep] IH.
    eapply step_thread_invariant; eassumption.
Qed.

Lemma run_schedule_rtc (schedule : list nat) (s s' : system) :
  run_schedule schedule s = Some s' -> rtc step s s'.
Proof.
  revert s. induction schedule as [|i schedule IH]; intros s Hrun;
    simpl in Hrun.
  - injection Hrun as <-. apply rtc_refl.
  - destruct (step_thread i s) as [s1|] eqn:Hstep; [|discriminate].
    eapply rtc_l; [exists i; exact Hstep | apply IH; exact Hrun].
Qed.

(** When the constructor never raises, each of its calls returns a
    model. *)
Lemma calls_all_construct (name : string) (n : nat) (w : World)
    (s : system) :
  (forall name w, exists model w',
     new_SentenceTransformer name w = (inr model, w')) ->
  reachable name n w s -> calls s = length (constructed s).
Proof.
  intros Hnever Hreach. unfold reachable in Hreach.
  refine (rtc_ind_r (fun s => calls s = length (constructed s))
            (initial name n w) _ _ s Hreach); [reflexivity|].
  intros s1 s2 _ [i Hstep] IH. unfold step_thread in Hstep.
  destruct (threads s1 !! i) as [[]|]; try discriminate;
    try (injection Hstep as <-; exact IH).
  - destruct (_lock s1); [discriminate|]. injection Hstep as <-. exact IH.
  - destruct (Hnever (model_name s1) (world s1)) as (model & w' & Hnew).
    rewrite Hnew in Hstep. injection Hstep as <-. simpl. now rewrite IH.
Qed.

(** C9.  However the steps of the threads that call [_get_model] on
    a new service interleave, the constructor returns a model at
    most once, and every thread that has returned has returned that
    one model, which is the one [self._model] holds; so once a thread
    has returned, the setup has been done exactly once.  When the
    constructor never raises, it is called at most once, and exactly
    once when a thread has returned. *)
Theorem model_is_set_up_once (name : string) (n : nat) (w : World)
    (s : system) :
  reachable name n w s ->
  (length (constructed s) <= 1)%nat /\
  (forall i r, threads s !! i = Some (Returned r) ->
     exists model,
       r = Some model /\ _model s = Some model /\
       constructed s = [model]) /\
  ((forall name w, exists model w',
      new_SentenceTransformer name w = (inr model, w')) ->
   (calls s <= 1)%nat /\
   forall i r, threads s !! i = Some (Returned r) -> calls s = 1%nat).
Proof.
  intros Hreach.
  cut ((length (constructed s) <= 1)%nat /\
       forall i r, threads s !! i = Some (Returned r) ->
         exists model,
           r = Some model /\ _model s = Some model /\
           constructed s = [model]).
  { intros [Hmost Hsame]. split; [exact Hmost|]. split; [exact Hsame|].
    intros Hnever.
    rewrite (calls_all_construct name n w s Hnever Hreach).
    split; [exact Hmost|].
    intros i r Hi. destruct (Hsame i r Hi) as (model & _ & _ & ->).
    reflexivity. }
  apply reachable_invariant in Hreach as Hinv.
  pose proof (inv_unset s Hinv) as Hunset.
  pose proof (inv_set s Hinv) as Hset.
  destruct (_model s) as [model|] eqn:Hmodel.
  - destruct (Hset model eq_refl) as [Hmade Hall]. split.
    + rewrite Hmade. simpl. lia.
    + intros i r Hi. exists model.
      destruct (Hall i (Returned r) Hi) as (_ & _ & Hr).
      split; [apply Hr; reflexivity | split; [reflexivity | exact Hmade]].
  - destruct (Hunset eq_refl) as [Hpast Hmade]. split.
    + destruct Hmade as [[-> _] | (k & model & _ & ->)]; simpl; lia.
    + intros i r Hi. exfalso. apply (Hpast i (Returned r) Hi). exact I.
Qed.

End Threads.

(** Two threads: both test, the first takes the lock, constructs,
    assigns and leaves; the second then takes the lock, finds the
    model and leaves; both return. *)
Lemma model_is_set_up_once_witness :
  @run_schedule TestEnv.env TestEnv.two_threads
    (@initial TestEnv.env "m" 2 TestEnv.start)
  = Some TestEnv.both_returned /\
  (length (@constructed TestEnv.env TestEnv.both_returned) <= 1)%nat /\
  forall i r,
    @threads TestEnv.env TestEnv.both_returned !! i = Some (Returned r) ->
    exists model,
      r = Some model /\
      @_model TestEnv.env TestEnv.both_returned = Some model /\
      @constructed TestEnv.env TestEnv.both_returned = [model].
Proof.
  split; [vm_compute; reflexivity|].
  destruct (@model_is_set_up_once TestEnv.env "m" 2 TestEnv.start
              TestEnv.both_returned) as (Hmost & Hsame & _).
  - apply (@run_schedule_rtc TestEnv.env TestEnv.two_threads).
    vm_compute. reflexivity.
  - split; [exact Hmost | exact Hsame].
Defined.

End LazyInitProps.

(* ===================================================================== *)
(** ** More facts about trimming *)
(* ===================================================================== *)

Module StripFacts.
Import PyStr PyStrFacts ChunkerSpec.

Lemma lstrip_no_leading_space (s : str) : no_leading_space (lstrip s).
Proof.
  induction s as [|c s IH]; simpl; [exact I|].
  destruct (isspace c) eqn:E; [exact IH | exact E].
Qed.

Lemma lstrip_fixed (s : str) : no_leading_space s -> lstrip s = s.
Proof. destruct s as [|c s]; simpl; [reflexivity|]. now intros ->. Qed.

(** What [lstrip] takes away is white space at the front. *)
Lemma lstrip_split (s : str) :
  exists ws, s = ws ++ lstrip s /\ Forall (fun c => isspace c = true) ws.
Proof.
  induction s as [|c s (ws & IH1 & IH2)]; simpl.
  - exists []. split; [reflexivity | constructor].
  - destruct (isspace c) eqn:E.
    + exists (c :: ws). split; [simpl; congruence | constructor; assumption].
    + exists []. split; [reflexivity | constructor].
Qed.

Lemma rstrip_no_trailing_space (s : str) : no_trailing_space (rstrip s).
Proof.
  unfold no_trailing_space, rstrip. rewrite rev_involutive.
  apply lstrip_no_leading_space.
Qed.

Lemma rstrip_fixed (s : str) : no_trailing_space s -> rstrip s = s.
Proof.
  unfold no_trailing_space, rstrip. intros H.
  rewrite lstrip_fixed by exact H. apply rev_involutive.
Qed.

(** What [rstrip] takes away is white space at the back. *)
Lemma rstrip_split (s : str) :
  exists ws, s = rstrip s ++ ws /\ Forall (fun c => isspace c = true) ws.
Proof.
  destruct (lstrip_split (rev s)) as (ws & Hsplit & Hws).
  exists (rev ws). split.
  - unfold rstrip. rewrite <- rev_app_distr, <- Hsplit.
    symmetry. apply rev_involutive.
  - apply Forall_rev. exact Hws.
Qed.

Lemma rstrip_keeps_front (s : str) :
  no_leading_space s -> no_leading_space (rstrip s).
Proof.
  intros H. destruct (rstrip_split s) as (ws & Hsplit & _).
  destruct (rstrip s) as [|c t] eqn:E; [exact I|].
  rewrite Hsplit in H. exact H.
Qed.

Lemma strip_no_leading_space (s : str) : no_leading_space (strip s).
Proof. apply rstrip_keeps_front, lstrip_no_leading_space. Qed.

Lemma strip_no_trailing_space (s : str) : no_trailing_space (strip s).
Proof. apply rstrip_no_trailing_space. Qed.

Lemma strip_fixed (s : str) :
  no_leading_space s -> no_trailing_space s -> strip s = s.
Proof.
  intros Hl Ht. unfold strip. rewrite (lstrip_fixed s Hl).
  apply rstrip_fixed, Ht.
Qed.

(** Trimming twice is trimming once. *)
Lemma strip_idempotent (s : str) : strip (strip s) = strip s.
Proof.
  apply strip_fixed;
    [apply strip_no_leading_space | apply strip_no_trailing_space].
Qed.

End StripFacts.

(* ===================================================================== *)
(** ** More facts about the chunker *)
(* ===================================================================== *)

Module ChunkerMore.
Import PyStr PyStrFacts Chunker ChunkerFacts ChunkerProps ChunkerSpec
  StripFacts.

Section AnySettings.

Variable self : DatasheetIngestionService.
Variable text : str.
Variable source_metadata : metadata.

(** What holds before the loop and is kept by every pass through its
    body holds when the loop is over. *)
Lemma while_loop_invariant (P : loop_state -> Prop) (fuel : nat)
    (st st' : loop_state) :
  P st ->
  (forall st, start_pos st < len text -> P st ->
              P (loop_body self text source_metadata st)) ->
  while_loop fuel self text source_metadata st = Some st' -> P st'.
Proof.
  intros Hst Hbody. revert st Hst.
  induction fuel as [|fuel IH]; intros st Hst Hrun;
    rewrite while_loop_eq in Hrun;
    (destruct (start_pos st <? len text) eqn:Hhead;
       [|now injection Hrun as <-]); [discriminate|].
  apply Z.ltb_lt in Hhead.
  destruct (start_pos (loop_body self text source_metadata st) >=? len text).
  - injection Hrun as <-. now apply Hbody.
  - apply (IH (loop_body self text source_metadata st)); [|exact Hrun].
    now apply Hbody.
Qed.

Lemma loop_body_chunk_index (st : loop_state) :
  chunk_index (loop_body self text source_metadata st) =
  chunk_index st + (if kept self text st then 1 else 0).
Proof.
  unfold loop_body, kept. destruct (keeps _ _ _ _); simpl; lia.
Qed.

Lemma create_text_chunks_inv (chunks : list (str * metadata)) :
  create_text_chunks self text source_metadata = Some chunks ->
  chunks = [] \/
  exists st,
    while_loop (length text) self text source_metadata initial_state
      = Some st /\ chunks = Chunker.chunks st.
Proof.
  unfold create_text_chunks.
  destruct (negb (truthy (strip text))); [left; congruence|].
  destruct (while_loop _ _ _ _ _) as [st|]; [|discriminate].
  simpl. intros Heq. injection Heq as <-. right. eauto.
Qed.

(** The chunk at position [k] of the result carries [chunk_index = k]. *)
Theorem chunk_index_counts_from_zero (chunks : list (str * metadata))
    (k : nat) (c : str * metadata) :
  create_text_chunks self text source_metadata = Some chunks ->
  chunks !! k = Some c ->
  snd c !! "chunk_index" = Some (VInt (Z.of_nat k)).
Proof.
  intros Hrun Hk.
  destruct (create_text_chunks_inv chunks Hrun) as [-> | (st & Hloop & ->)];
    [rewrite lookup_nil in Hk; discriminate|].
  revert k c Hk.
  cut (chunk_index st = Z.of_nat (length (Chunker.chunks st)) /\
       forall k c, Chunker.chunks st !! k = Some c ->
                   snd c !! "chunk_index" = Some (VInt (Z.of_nat k)));
    [intros [_ H]; exact H|].
  refine (while_loop_invariant
            (fun st => chunk_index st = Z.of_nat (length (Chunker.chunks st)) /\
               forall k c, Chunker.chunks st !! k = Some c ->
                 snd c !! "chunk_index" = Some (VInt (Z.of_nat k)))
            _ _ _ _ _ Hloop).
  - split; [reflexivity|]. intros k c Hk. simpl in Hk.
    rewrite lookup_nil in Hk. discriminate.
  - intros s _ [Hidx Hnum].
    rewrite loop_body_chunk_index, loop_body_chunks.
    destruct (kept self text s).
    + split; [rewrite length_app; simpl; lia|].
      intros k c Hk. apply lookup_app_Some in Hk.
      destruct Hk as [Hold | [Hge Hnew]]; [now apply Hnum|].
      apply list_lookup_singleton_Some in Hnew. destruct Hnew as [Hk0 <-].
      unfold emitted. simpl snd.
      destruct (chunk_metadata_lookup source_metadata (chunk_index s)
                  (start_pos s) (chunk_end_pos self text (start_pos s))
                  (len (strip (slice text (start_pos s)
                                 (chunk_end_pos self text (start_pos s)))))
                  (len text)) as (Hi & _).
      rewrite Hi, Hidx. do 2 f_equal. lia.
    + rewrite app_nil_r. split; [lia | exact Hnum].
Qed.

Lemma chunk_lookup_source (chunks : list (str * metadata))
    (c : str * metadata) (key : string) :
  create_text_chunks self text source_metadata = Some chunks ->
  c ∈ chunks -> key ∉ chunk_keys ->
  snd c !! key = source_metadata !! key.
Proof.
  intros Hrun Hc Hkey.
  destruct (create_text_chunks_inv chunks Hrun) as [-> | (st & Hloop & ->)];
    [apply elem_of_nil in Hc; contradiction|].
  destruct (while_loop_chunks_inv self text source_metadata _ _ _ c Hloop Hc)
    as [Hnil | (it & _ & _ & ->)];
    [apply elem_of_nil in Hnil; contradiction|].
  unfold emitted, chunk_metadata. simpl snd.
  unfold chunk_keys in Hkey.
  rewrite !not_elem_of_cons in Hkey.
  destruct Hkey as (H1 & H2 & H3 & H4 & H5 & _).
  rewrite !lookup_insert_ne by congruence. reflexivity.
Qed.

(** The keys of a chunk's metadata: the five of the chunk and those
    of the source. *)
Lemma chunk_dom (chunks : list (str * metadata)) (c : str * metadata) :
  create_text_chunks self text source_metadata = Some chunks ->
  c ∈ chunks ->
  dom (snd c) = list_to_set chunk_keys ∪ dom source_metadata.
Proof.
  intros Hrun Hc.
  destruct (create_text_chunks_inv chunks Hrun) as [-> | (st & Hloop & ->)];
    [apply elem_of_nil in Hc; contradiction|].
  destruct (while_loop_chunks_inv self text source_metadata _ _ _ c Hloop Hc)
    as [Hnil | (it & _ & _ & ->)];
    [apply elem_of_nil in Hnil; contradiction|].
  unfold emitted, chunk_metadata, chunk_keys. simpl snd.
  rewrite !dom_insert_L. simpl.
  rewrite (right_id_L ∅ (∪)). rewrite <- !(assoc_L (∪)). reflexivity.
Qed.

(** The metadata of a chunk is the metadata of the source with the
    five entries of the chunk written over it: every other key keeps
    the value of the source, each of the five holds an integer
    whatever the source had under it, and there are no further
    keys. *)
Theorem source_metadata_is_kept (chunks : list (str * metadata))
    (c : str * metadata) :
  create_text_chunks self text source_metadata = Some chunks ->
  c ∈ chunks ->
  (forall key, key ∉ chunk_keys -> snd c !! key = source_metadata !! key) /\
  (forall key, key ∈ chunk_keys -> exists z, snd c !! key = Some (VInt z)) /\
  dom (snd c) = list_to_set chunk_keys ∪ dom source_metadata.
Proof.
  intros Hrun Hc. split; [|split].
  - intros key. now apply chunk_lookup_source with chunks.
  - intros key Hkey.
    destruct (create_text_chunks_inv chunks Hrun) as [-> | (st & Hloop & ->)];
      [apply elem_of_nil in Hc; contradiction|].
    destruct (while_loop_chunks_inv self text source_metadata _ _ _ c
                Hloop Hc) as [Hnil | (it & _ & _ & ->)];
      [apply elem_of_nil in Hnil; contradiction|].
    unfold emitted. simpl snd.
    destruct (chunk_metadata_lookup source_metadata (chunk_index it)
                (start_pos it) (chunk_end_pos self text (start_pos it))
                (len (strip (slice text (start_pos it)
                               (chunk_end_pos self text (start_pos it)))))
                (len text)) as (H1 & H2 & H3 & H4 & H5).
    unfold chunk_keys in Hkey. rewrite !elem_of_cons, elem_of_nil in Hkey.
    destruct Hkey as [-> | [-> | [-> | [-> | [-> | []]]]]]; eauto.
  - now apply chunk_dom with chunks.
Qed.

End AnySettings.

(** *** With the settings of [__init__] *)

Lemma chunk_end_pos_upper (text : str) (start : Z) :
  0 <= start < len text -> chunk_end_pos init text start <= start + 2000.
Proof.
  intros Hstart. unfold chunk_end_pos. simpl max_chunk_size.
  simpl min_chunk_size.
  set (ep := Z.min (start + 2000) (len text)).
  destruct (ep <? len text) eqn:E; [|lia].
  set (ss := Z.max (start + 1000) (ep - 200)).
  destruct (find_sentence_end_ok text ss ep ltac:(lia) ltac:(lia))
    as [-> | (p & _ & _ & H2 & _)]; [simpl; lia|].
  destruct (find_sentence_end text ss ep >? 0); lia.
Qed.

(** A text shorter than [min_chunk_size] that trimming leaves as it
    is makes one chunk. *)
Lemma one_chunk_of_short_text (text : str) (md : metadata) :
  text <> [] -> len text < 1000 -> strip text = text ->
  create_text_chunks init text md
  = Some [(text, chunk_metadata md 0 0 (len text) (len text) (len text))].
Proof.
  intros Hne Hshort Hstrip.
  assert (0 < len text) as Hpos.
  { pose proof (len_nonneg text).
    destruct (Z.eq_dec (len text) 0) as [E | E]; [|lia].
    apply len_nil_inv in E. contradiction. }
  assert (chunk_end_pos init text 0 = len text) as Hend.
  { unfold chunk_end_pos. simpl max_chunk_size.
    replace (Z.min (0 + 2000) (len text)) with (len text) by lia.
    rewrite Z.ltb_irrefl. reflexivity. }
  unfold create_text_chunks. rewrite Hstrip.
  destruct text as [|c text']; [contradiction|]. simpl truthy. simpl negb.
  cbv iota. set (text := c :: text') in *.
  change (length text) with (S (length text')).
  rewrite while_loop_eq. simpl start_pos.
  assert ((0 <? len text) = true) as -> by (apply Z.ltb_lt; lia).
  unfold loop_body. simpl start_pos. simpl chunk_index. simpl chunks.
  rewrite Hend, slice_whole, Hstrip.
  assert (keeps init text 0 text = true) as ->.
  { unfold keeps. apply orb_true_iff. right. apply Z.geb_le. lia. }
  assert (next_start_pos init 0 (len text) = 1000) as ->.
  { unfold next_start_pos. simpl min_chunk_size. simpl overlap_size.
    replace (Z.max (0 + 1000) (len text - 200)) with 1000 by lia.
    reflexivity. }
  simpl start_pos.
  assert ((1000 >=? len text) = true) as -> by (apply Z.geb_le; lia).
  reflexivity.
Qed.

(** Where a chunk of the result comes from. *)
Lemma chunk_origin (text : str) (md : metadata)
    (chunks : list (str * metadata)) (c : str * metadata) :
  create_text_chunks init text md = Some chunks -> c ∈ chunks ->
  exists it,
    0 <= start_pos it < len text /\ kept init text it = true /\
    c = emitted init text md it.
Proof.
  intros Hrun Hc.
  destruct (create_text_chunks_inv init text md chunks Hrun)
    as [-> | (st & Hloop & ->)];
    [apply elem_of_nil in Hc; contradiction|].
  destruct (while_loop_chunks_inv init text md _ _ _ c Hloop Hc)
    as [Hnil | (it & Hit & Hkept & ->)];
    [apply elem_of_nil in Hnil; contradiction|].
  exists it. split; [|split; [exact Hkept | reflexivity]].
  apply (iterations_inside init text md init_min_pos (length text)
           initial_state it); [simpl; lia | exact Hit].
Qed.

Lemma emitted_len (text : str) (md : metadata) (it : loop_state) :
  0 <= start_pos it < len text -> kept init text it = true ->
  1 <= len (fst (emitted init text md it)) <= 2000.
Proof.
  intros Hin Hkept. unfold emitted. simpl fst.
  destruct (chunk_end_pos_bounds init text init_min_pos init_min_le_max
              (start_pos it) Hin) as [Hb _].
  pose proof (chunk_end_pos_upper text (start_pos it) Hin) as Hup.
  set (e := chunk_end_pos init text (start_pos it)) in *.
  pose proof (strip_len (slice text (start_pos it) e)) as Hle.
  rewrite slice_len in Hle by lia.
  unfold kept, keeps in Hkept. fold e in Hkept. simpl min_chunk_size in Hkept.
  apply orb_true_iff in Hkept.
  destruct Hkept as [H | H]; apply Z.geb_le in H; lia.
Qed.

(** Every chunk has between 1 and [max_chunk_size] = 2000 characters,
    and every chunk but the last at least [min_chunk_size] = 1000. *)
Theorem chunk_sizes (text : str) (md : metadata)
    (chunks : list (str * metadata)) (k : nat) (c : str * metadata) :
  create_text_chunks init text md = Some chunks ->
  chunks !! k = Some c ->
  1 <= len (fst c) <= 2000 /\
  ((S k < length chunks)%nat -> 1000 <= len (fst c)).
Proof.
  intros Hrun Hk. split.
  - destruct (chunk_origin text md chunks c Hrun) as (it & Hin & Hkept & ->).
    { apply list_elem_of_lookup. eauto. }
    now apply emitted_len.
  - destruct (create_text_chunks_inv init text md chunks Hrun)
      as [-> | (st & Hloop & ->)];
      [rewrite lookup_nil in Hk; discriminate|].
    revert k c Hk.
    cut ((forall k c, Chunker.chunks st !! k = Some c ->
            (S k < length (Chunker.chunks st))%nat -> 1000 <= len (fst c)) /\
         (start_pos st < len text ->
          forall c, c ∈ Chunker.chunks st -> 1000 <= len (fst c)));
      [intros [H _]; exact H|].
    refine (while_loop_invariant init text md
              (fun st =>
                 (forall k c, Chunker.chunks st !! k = Some c ->
                    (S k < length (Chunker.chunks st))%nat ->
                    1000 <= len (fst c)) /\
                 (start_pos st < len text ->
                  forall c, c ∈ Chunker.chunks st -> 1000 <= len (fst c)))
              _ _ _ _ _ Hloop).
    + split.
      * intros k c Hk. simpl in Hk. rewrite lookup_nil in Hk. discriminate.
      * intros _ c Hc. apply elem_of_nil in Hc. contradiction.
    + intros s Hhead [_ Hall]. specialize (Hall Hhead).
      rewrite loop_body_chunks.
      pose proof (loop_body_progress init text md s) as Hnext.
      simpl min_chunk_size in Hnext.
      destruct (kept init text s) eqn:Hkept;
        [|rewrite app_nil_r; split;
          [intros k c Hk _; apply Hall, list_elem_of_lookup; eauto
          |intros _; exact Hall]].
      split.
      * intros k c Hk Hlast. rewrite length_app in Hlast. simpl in Hlast.
        apply Hall. apply list_elem_of_lookup. exists k.
        rewrite lookup_app_l in Hk by lia. exact Hk.
      * intros Hgo c Hc. apply elem_of_app in Hc.
        destruct Hc as [Hc | Hc]; [now apply Hall|].
        apply list_elem_of_singleton in Hc. subst c.
        unfold kept, keeps in Hkept. simpl min_chunk_size in Hkept.
        unfold emitted. simpl fst.
        apply orb_true_iff in Hkept.
        destruct Hkept as [H | H]; apply Z.geb_le in H; lia.
Qed.

Lemma emitted_span (self : DatasheetIngestionService) (text : str)
    (md : metadata) (st : loop_state) :
  chunk_span (emitted self text md st)
  = Some (start_pos st, chunk_end_pos self text (start_pos st)).
Proof.
  unfold chunk_span, emitted. simpl snd.
  destruct (chunk_metadata_lookup md (chunk_index st) (start_pos st)
              (chunk_end_pos self text (start_pos st))
              (len (strip (slice text (start_pos st)
                             (chunk_end_pos self text (start_pos st)))))
              (len text)) as (_ & -> & -> & _).
  reflexivity.
Qed.

(** A later chunk starts at least [min_chunk_size] = 1000 after an
    earlier one, and at most [overlap_size] = 200 before its end. *)
Theorem chunks_advance (text : str) (md : metadata)
    (chunks : list (str * metadata)) (j k : nat) (cj ck : str * metadata) :
  create_text_chunks init text md = Some chunks ->
  (j < k)%nat -> chunks !! j = Some cj -> chunks !! k = Some ck ->
  exists s e s' e',
    chunk_span cj = Some (s, e) /\ chunk_span ck = Some (s', e') /\
    s + 1000 <= s' /\ e - 200 <= s'.
Proof.
  intros Hrun Hjk Hj Hk.
  destruct (create_text_chunks_inv init text md chunks Hrun)
    as [-> | (st & Hloop & ->)];
    [rewrite lookup_nil in Hj; discriminate|].
  revert j k cj ck Hjk Hj Hk.
  cut ((forall c, c ∈ Chunker.chunks st ->
          exists s e, chunk_span c = Some (s, e) /\
                      s + 1000 <= start_pos st /\ e - 200 <= start_pos st) /\
       (forall j k cj ck, (j < k)%nat ->
          Chunker.chunks st !! j = Some cj ->
          Chunker.chunks st !! k = Some ck ->
          exists s e s' e',
            chunk_span cj = Some (s, e) /\ chunk_span ck = Some (s', e') /\
            s + 1000 <= s' /\ e - 200 <= s'));
    [intros [_ H]; exact H|].
  refine (while_loop_invariant init text md
            (fun st =>
               (forall c, c ∈ Chunker.chunks st ->
                  exists s e, chunk_span c = Some (s, e) /\
                    s + 1000 <= start_pos st /\ e - 200 <= start_pos st) /\
               (forall j k cj ck, (j < k)%nat ->
                  Chunker.chunks st !! j = Some cj ->
                  Chunker.chunks st !! k = Some ck ->
                  exists s e s' e',
                    chunk_span cj = Some (s, e) /\
                    chunk_span ck = Some (s', e') /\
                    s + 1000 <= s' /\ e - 200 <= s'))
            _ _ _ _ _ Hloop).
  - split.
    + intros c Hc. apply elem_of_nil in Hc. contradiction.
    + intros j k cj ck _ Hj. simpl in Hj. rewrite lookup_nil in Hj.
      discriminate.
  - intros s Hhead [Hbehind Hpairs].
    pose proof (loop_body_progress init text md s) as Hnext.
    simpl min_chunk_size in Hnext.
    assert (chunk_end_pos init text (start_pos s) - 200
            <= start_pos (loop_body init text md s)) as Hover.
    { rewrite loop_body_start_pos. unfold next_start_pos.
      simpl min_chunk_size. simpl overlap_size.
      destruct (Z.max _ _ <=? start_pos s) eqn:E; [|lia].
      apply Z.leb_le in E. lia. }
    rewrite loop_body_chunks. split.
    + intros c Hc. apply elem_of_app in Hc. destruct Hc as [Hc | Hc].
      * destruct (Hbehind c Hc) as (s0 & e0 & Hspan & H1 & H2).
        exists s0, e0. split; [exact Hspan | lia].
      * destruct (kept init text s);
          [|apply elem_of_nil in Hc; contradiction].
        apply list_elem_of_singleton in Hc. subst c.
        eexists _, _. split; [apply emitted_span | lia].
    + intros j k cj ck Hjk Hj Hk.
      destruct (kept init text s);
        [|rewrite app_nil_r in Hj, Hk; eauto].
      apply lookup_app_Some in Hk.
      destruct Hk as [Hk | [Hge Hk]].
      * rewrite lookup_app_l in Hj
          by (apply lookup_lt_Some in Hk; lia). eauto.
      * apply list_lookup_singleton_Some in Hk. destruct Hk as [Hk0 <-].
        rewrite lookup_app_l in Hj by lia.
        destruct (Hbehind cj) as (s0 & e0 & Hspan & H1 & H2).
        { apply list_elem_of_lookup. eauto. }
        eexists s0, e0, _, _.
        split; [exact Hspan|]. split; [apply emitted_span | lia].
Qed.

(** The filter of [generate_embeddings] lets the texts of the chunks
    through. *)
Lemma chunk_texts_pass_the_filter (text : str) (md : metadata)
    (chunks : list (str * metadata)) :
  create_text_chunks init text md = Some chunks ->
  List.filter (fun t => truthy (strip t)) (List.map fst chunks)
  = List.map fst chunks.
Proof.
  intros Hrun.
  assert (forall c, c ∈ chunks -> truthy (strip (fst c)) = true) as Hall.
  { intros c Hc.
    destruct (chunk_origin text md chunks c Hrun Hc)
      as (it & Hin & Hkept & ->).
    pose proof (emitted_len text md it Hin Hkept) as Hlen.
    unfold emitted in *. simpl fst in *. rewrite strip_idempotent.
    destruct (strip _); [unfold len in Hlen; simpl in Hlen; lia|].
    reflexivity. }
  clear Hrun. induction chunks as [|c cs IH]; [reflexivity|].
  simpl. rewrite (Hall c) by (apply elem_of_cons; now left).
  f_equal. apply IH. intros c' Hc'. apply Hall, elem_of_cons. now right.
Qed.

(** Chunks are trimmed and not empty, so [generate_embeddings], which
    drops blank texts, drops none of them. *)
Theorem chunks_are_not_blank (text : str) (md : metadata)
    (chunks : list (str * metadata)) :
  create_text_chunks init text md = Some chunks ->
  Forall (fun c => strip (fst c) = fst c /\ fst c <> []) chunks /\
  List.filter (fun t => truthy (strip t)) (List.map fst chunks)
  = List.map fst chunks.
Proof.
  intros Hrun.
  assert (Forall (fun c => strip (fst c) = fst c /\ fst c <> []) chunks)
    as Hall.
  { apply Forall_forall. intros c Hc.
    destruct (chunk_origin text md chunks c Hrun Hc)
      as (it & Hin & Hkept & ->).
    split; [unfold emitted; simpl fst; apply strip_idempotent|].
    pose proof (emitted_len text md it Hin Hkept) as Hlen.
    intros Hnil. rewrite Hnil in Hlen. unfold len in Hlen. simpl in Hlen.
    lia. }
  split; [exact Hall|].
  clear Hrun. induction Hall as [|c cs [Hstrip Hne] _ IH]; [reflexivity|].
  simpl. rewrite Hstrip.
  destruct (fst c) eqn:E; [contradiction|]. simpl. now rewrite IH.
Qed.

(** *** The properties at work *)

Lemma letters_chunks :
  create_text_chunks init MoreInputs.letters ∅
  = Some [MoreInputs.letters_head; MoreInputs.letters_tail].
Proof. reflexivity. Qed.

Lemma greeting_chunks :
  create_text_chunks init Inputs.greeting ∅ = Some [MoreInputs.greeting_chunk].
Proof. reflexivity. Qed.

Lemma chunk_index_counts_from_zero_witness :
  snd MoreInputs.letters_tail !! "chunk_index" = Some (VInt (Z.of_nat 1)).
Proof.
  apply (chunk_index_counts_from_zero init MoreInputs.letters ∅
           [MoreInputs.letters_head; MoreInputs.letters_tail] 1
           MoreInputs.letters_tail letters_chunks).
  reflexivity.
Defined.

Lemma source_metadata_is_kept_witness :
  snd MoreInputs.greeting_chunk !! "mpn" = (∅ : metadata) !! "mpn" /\
  exists z, snd MoreInputs.greeting_chunk !! "chunk_end" = Some (VInt z).
Proof.
  destruct (source_metadata_is_kept init Inputs.greeting ∅
              [MoreInputs.greeting_chunk] MoreInputs.greeting_chunk
              greeting_chunks) as (Hkept & Hown & _).
  - apply list_elem_of_singleton. reflexivity.
  - split.
    + apply Hkept. unfold chunk_keys. rewrite !not_elem_of_cons.
      repeat split; try discriminate. apply not_elem_of_nil.
    + apply Hown. unfold chunk_keys. rewrite !elem_of_cons. tauto.
Defined.

Lemma chunk_sizes_witness :
  1 <= len (fst MoreInputs.letters_head) <= 2000 /\
  1000 <= len (fst MoreInputs.letters_head).
Proof.
  destruct (chunk_sizes MoreInputs.letters ∅
              [MoreInputs.letters_head; MoreInputs.letters_tail] 0
              MoreInputs.letters_head letters_chunks eq_refl)
    as [Hsize Hmin].
  split; [exact Hsize|]. apply Hmin. simpl. lia.
Defined.

Lemma chunks_advance_witness :
  exists s e s' e',
    chunk_span MoreInputs.letters_head = Some (s, e) /\
    chunk_span MoreInputs.letters_tail = Some (s', e') /\
    s + 1000 <= s' /\ e - 200 <= s'.
Proof.
  apply (chunks_advance MoreInputs.letters ∅
           [MoreInputs.letters_head; MoreInputs.letters_tail] 0 1
           MoreInputs.letters_head MoreInputs.letters_tail letters_chunks);
    [lia | reflexivity | reflexivity].
Defined.

Lemma chunks_are_not_blank_witness :
  List.filter (fun t => truthy (strip t))
    (List.map fst [MoreInputs.letters_head; MoreInputs.letters_tail])
  = List.map fst [MoreInputs.letters_head; MoreInputs.letters_tail].
Proof.
  apply (chunks_are_not_blank MoreInputs.letters ∅
           [MoreInputs.letters_head; MoreInputs.letters_tail] letters_chunks).
Defined.

End ChunkerMore.

(* ===================================================================== *)
(** ** More facts about [EmbeddingService] *)
(* ===================================================================== *)

Module EmbeddingsMore.
Import PyStr PyStrFacts Py Embeddings EmbeddingsProps.

Section Service.
Context `{Env}.

(** A model that was loaded stays: [_get_model] stores the model it
    returns, and from then on returns it without a call of the
    constructor.  A load that raises leaves the service as it was, so
    that the next call tries again. *)
Theorem model_is_cached (s : state) :
  (forall model s', _get_model s = (inr model, s') ->
     _model (fst s') = Some model /\
     model_name (fst s') = model_name (fst s) /\
     _get_model s' = (inr model, s')) /\
  (forall e s', _get_model s = (inl e, s') ->
     fst s' = fst s /\ _model (fst s) = None).
Proof.
  destruct s as [self w]. unfold _get_model.
  destruct (_model self) as [model0|] eqn:E.
  - split; [|discriminate].
    intros model s' Heq. injection Heq as <- <-. simpl.
    rewrite E. repeat split; assumption.
  - destruct (new_SentenceTransformer (model_name self) w)
      as [[e0 | model0] w'].
    + split; [discriminate|].
      intros e s' Heq. injection Heq as <- <-. split; [reflexivity | exact E].
    + split; [|discriminate].
      intros model s' Heq. injection Heq as <- <-. simpl. repeat split.
Qed.

(** [generate_embedding(text)] returns what comes first in
    [generate_embeddings([text])], and leaves the same state. *)
Theorem generate_embedding_is_first_of_batch (text : str) (s s' : state)
    (v : list float) :
  generate_embedding text s = (inr v, s') <->
  exists vs, generate_embeddings [text] s = (inr (v :: vs), s').
Proof.
  unfold generate_embedding, generate_embeddings. cbn [List.filter].
  destruct (truthy (strip text)) eqn:E; cbn [negb]; cbv beta iota.
  - unfold bind.
    destruct (_get_model s) as [[e | model] s1];
      [split; [discriminate | intros [vs Hvs]; discriminate]|].
    destruct (lib (encode model [text]) s1) as [[e | rows] s2];
      [split; [discriminate | intros [vs Hvs]; discriminate]|].
    destruct rows as [|row rows]; simpl; unfold ret, raise.
    + split; [discriminate | intros [vs Hvs]; discriminate].
    + split.
      * intros Heq. injection Heq as <- <-. eauto.
      * intros [vs Hvs]. injection Hvs as <- _ <-. reflexivity.
  - unfold raise. split; [discriminate | intros [vs Hvs]; discriminate].
Qed.

(** A service that has its model keeps it: none of the methods
    changes the service then, whatever the encoder does, and none
    calls the constructor.  A service that has no model has one
    after a method returned what the encoder answered. *)
Theorem a_loaded_model_is_kept (s : state) :
  (forall model, _model (fst s) = Some model ->
     _get_model s = (inr model, s) /\
     (forall text, fst (snd (generate_embedding text s)) = fst s) /\
     (forall texts, fst (snd (generate_embeddings texts s)) = fst s) /\
     fst (snd (get_embedding_dimension s)) = fst s) /\
  (forall text v s', generate_embedding text s = (inr v, s') ->
     exists model, _model (fst s') = Some model) /\
  (forall texts vs s', texts <> [] ->
     generate_embeddings texts s = (inr vs, s') ->
     exists model, _model (fst s') = Some model) /\
  (forall d s', get_embedding_dimension s = (inr d, s') ->
     exists model, _model (fst s') = Some model).
Proof.
  assert (forall {A} (f : World -> (exn + A) * World) (s1 s2 : state) r,
            lib f s1 = (r, s2) -> fst s2 = fst s1) as Hlib.
  { intros A f s1 s2 r. unfold lib, call.
    destruct (f (snd s1)) as [[e | a] w]; intros Heq;
      now injection Heq as _ <-. }
  assert (forall s0 model s1, _get_model s0 = (inr model, s1) ->
            _model (fst s1) = Some model) as Hloaded.
  { intros s0 model s1 Hget.
    destruct (_get_model_result s0) as [(m & s2 & Hm & Hs2) | (e & s2 & He)];
      congruence. }
  split; [|split; [|split]].
  - intros model Hmodel.
    assert (_get_model s = (inr model, s)) as Hget.
    { destruct s as [self w]. simpl in Hmodel. unfold _get_model.
      now rewrite Hmodel. }
    split; [exact Hget|]. split; [|split].
    + intros text. unfold generate_embedding.
      destruct (negb (truthy (strip text))); [reflexivity|].
      unfold bind. rewrite Hget.
      destruct (lib (encode model [text]) s) as [[e | rows] s2] eqn:Hcall;
        apply Hlib in Hcall; [exact Hcall|].
      destruct rows; exact Hcall.
    + intros texts. unfold generate_embeddings.
      destruct texts as [|t ts]; [reflexivity|].
      destruct (List.filter _ (t :: ts)) as [|v vs]; [reflexivity|].
      unfold bind. rewrite Hget.
      destruct (lib (encode model (v :: vs)) s) as [[e | rows] s2] eqn:Hcall;
        apply Hlib in Hcall; exact Hcall.
    + unfold get_embedding_dimension, bind. rewrite Hget.
      destruct (lib (get_sentence_embedding_dimension model) s)
        as [r s2] eqn:Hcall.
      apply Hlib in Hcall. exact Hcall.
  - intros text v s'. unfold generate_embedding.
    destruct (negb (truthy (strip text))); [discriminate|].
    unfold bind.
    destruct (_get_model s) as [[e | model] s1] eqn:Hget; [discriminate|].
    apply Hloaded in Hget.
    destruct (lib (encode model [text]) s1) as [[e | rows] s2] eqn:Hcall;
      [discriminate|].
    apply Hlib in Hcall.
    destruct rows; [discriminate|]. intros Heq. injection Heq as _ <-.
    exists model. congruence.
  - intros texts vs s' Hne. unfold generate_embeddings.
    destruct texts as [|t ts]; [contradiction|].
    destruct (List.filter _ (t :: ts)) as [|v0 vs0]; [discriminate|].
    unfold bind.
    destruct (_get_model s) as [[e | model] s1] eqn:Hget; [discriminate|].
    apply Hloaded in Hget.
    destruct (lib (encode model (v0 :: vs0)) s1) as [[e | rows] s2] eqn:Hcall;
      [discriminate|].
    apply Hlib in Hcall. intros Heq. injection Heq as _ <-.
    exists model. congruence.
  - intros d s'. unfold get_embedding_dimension, bind.
    destruct (_get_model s) as [[e | model] s1] eqn:Hget; [discriminate|].
    apply Hloaded in Hget. intros Hcall. apply Hlib in Hcall.
    exists model. congruence.
Qed.

End Service.

(** A new service loads the model ["m"], and answers it again. *)
Lemma model_is_cached_witness :
  @_get_model TestEnv.env TestEnv.new_service
  = (inr "m", (@Build_EmbeddingService TestEnv.env "m" (Some "m"),
               TestEnv.start)) /\
  @_get_model TestEnv.env
    (@Build_EmbeddingService TestEnv.env "m" (Some "m"), TestEnv.start)
  = (inr "m", (@Build_EmbeddingService TestEnv.env "m" (Some "m"),
               TestEnv.start)).
Proof.
  split; [reflexivity|].
  apply (proj1 (@model_is_cached TestEnv.env TestEnv.new_service) "m"
           (@Build_EmbeddingService TestEnv.env "m" (Some "m"),
            TestEnv.start)).
  reflexivity.
Defined.

(** The encoder of the test world answers the length of a text. *)
Lemma generate_embedding_is_first_of_batch_witness :
  exists vs,
    @generate_embeddings TestEnv.env [Inputs.greeting] TestEnv.new_service
    = (inr ([3] :: vs),
       (@Build_EmbeddingService TestEnv.env "m" (Some "m"), TestEnv.start)).
Proof.
  apply (proj1 (@generate_embedding_is_first_of_batch TestEnv.env
                  Inputs.greeting TestEnv.new_service
                  (@Build_EmbeddingService TestEnv.env "m" (Some "m"),
                   TestEnv.start) [3])).
  reflexivity.
Defined.

(** A new service has its model after the first text is encoded. *)
Lemma a_loaded_model_is_kept_witness :
  exists model,
    @_model TestEnv.env
      (fst (snd (@generate_embedding TestEnv.env Inputs.greeting
                   TestEnv.new_service))) = Some model.
Proof.
  apply (proj1 (proj2 (@a_loaded_model_is_kept TestEnv.env
                         TestEnv.new_service))
           Inputs.greeting [3]).
  reflexivity.
Defined.

End EmbeddingsMore.

(* ===================================================================== *)
(** ** More facts about [VectorDBService] *)
(* ===================================================================== *)

Module VectorDBMore.
Import PyStr Py VectorDB VectorDBProps.

Section Service.
Context `{Env}.

Lemma bind_inr {S A B} (c : M S A) (k : A -> M S B) (s s' : S) (b : B) :
  bind c k s = (inr b, s') ->
  exists a s1, c s = (inr a, s1) /\ k a s1 = (inr b, s').
Proof.
  unfold bind. destruct (c s) as [[e | a] s1]; [discriminate|]. eauto.
Qed.

Lemma bind_inl {S A B} (c : M S A) (k : A -> M S B) (s s' : S) (e : error) :
  bind c k s = (inl e, s') ->
  c s = (inl e, s') \/ exists a s1, c s = (inr a, s1) /\ k a s1 = (inl e, s').
Proof.
  unfold bind. destruct (c s) as [[e0 | a] s1];
    [intros Heq; injection Heq as -> ->; left; reflexivity | right; eauto].
Qed.

Lemma lib_keeps_self {A} (f : World -> (exn + A) * World) (s s' : state)
    (r : error + A) :
  lib f s = (r, s') ->
  fst s' = fst s /\
  _embedding_service (snd s') = _embedding_service (snd s) /\
  _vector_db_service (snd s') = _vector_db_service (snd s).
Proof.
  unfold lib, call. destruct (f (world (snd s))) as [[e | a] w];
    intros Heq; injection Heq as _ <-; repeat split.
Qed.

Lemma _get_client_keeps_collection (s s' : state) (r : error + Client) :
  _get_client s = (r, s') -> _collection (fst s') = _collection (fst s).
Proof.
  destruct s as [self p]. unfold _get_client.
  destruct (_client self); [intros Heq; now injection Heq as _ <-|].
  destruct (PersistentClient _ _) as [[e | client] w];
    intros Heq; now injection Heq as _ <-.
Qed.

Lemma get_embedding_service_keeps_self (s s' : state)
    (r : error + Embeddings.EmbeddingService) :
  get_embedding_service s = (r, s') -> fst s' = fst s.
Proof.
  destruct s as [self p]. unfold get_embedding_service.
  destruct (_embedding_service p); intros Heq; now injection Heq as _ <-.
Qed.

(** Asking the client for the collection, by getting or by creating
    it, leaves [self] as it is. *)
Lemma get_or_create_keeps_self (client : Client) (s s' : state)
    (r : error + Collection) :
  try_except
    (fun s' => lib (client_get_collection client (collection_name (fst s')))
                 s')
    (fun _ s' => lib (client_create_collection client
                        (collection_name (fst s'))) s') s = (r, s') ->
  fst s' = fst s.
Proof.
  unfold try_except.
  destruct (lib (client_get_collection client (collection_name (fst s))) s)
    as [[e | c] s1] eqn:Hget.
  - intros Hcreate. apply lib_keeps_self in Hget as [Hget _].
    apply lib_keeps_self in Hcreate as [Hcreate _]. congruence.
  - intros Heq. injection Heq as _ <-.
    now apply lib_keeps_self in Hget as [Hget _].
Qed.

(** A collection that [_get_collection] returns is the one it has
    stored. *)
Lemma _get_collection_inr (s s' : state) (collection : Collection) :
  _get_collection s = (inr collection, s') ->
  _collection (fst s') = Some collection.
Proof.
  unfold _get_collection.
  destruct (_collection (fst s)) as [c0|] eqn:Hcached.
  - intros Heq. injection Heq as <- <-. exact Hcached.
  - intros Hrun.
    apply bind_inr in Hrun as (client & s1 & _ & Hrun).
    apply bind_inr in Hrun as (service & s2 & _ & Hrun).
    apply bind_inr in Hrun as (c & s3 & _ & Hrun).
    apply bind_inr in Hrun as ([] & s4 & Hset & Hrun).
    injection Hrun as <- <-.
    destruct s3 as [self p]. injection Hset as <-. reflexivity.
Qed.

(** What a call of [add_document_chunks] that returns has done. *)
Lemma add_document_chunks_inr (chunks : list str)
    (metadata_list : list metadata) (s s' : state) (doc_ids : list string) :
  add_document_chunks chunks metadata_list s = (inr doc_ids, s') ->
  length doc_ids = length chunks /\
  exists collection embeddings s1 s2,
    _collection (fst s') = Some collection /\
    CustomEmbeddingFunction chunks s1 = (inr embeddings, s2) /\
    collection_add collection chunks metadata_list doc_ids embeddings
      (world (snd s2))
    = (inr tt, world (snd s')).
Proof.
  destruct (Nat.eq_dec (length chunks) (length metadata_list)) as [E | E];
    [|unfold add_document_chunks;
      rewrite (proj2 (Nat.eqb_neq _ _) E); discriminate].
  rewrite (add_document_chunks_eq chunks metadata_list s E).
  destruct (_get_collection s) as [[e | collection] s1] eqn:Hget;
    [discriminate|].
  apply _get_collection_inr in Hget. cbv zeta.
  pose proof (fresh_ids_spec chunks (world (snd s1))) as [Hlen _].
  destruct (CustomEmbeddingFunction chunks _) as [[e | embeddings] s2]
    eqn:Hembed; [discriminate|].
  pose proof Hembed as Hkeeps. unfold CustomEmbeddingFunction in Hkeeps.
  apply on_embedding_service_keeps in Hkeeps as (Hself & _).
  destruct (collection_add collection chunks metadata_list _ embeddings
              (world (snd s2))) as [[e | []] w2] eqn:Hadd; [discriminate|].
  intros Heq. injection Heq as <- <-. split; [exact Hlen|].
  eexists collection, embeddings, _, s2.
  split; [simpl; rewrite Hself; exact Hget|].
  split; [exact Hembed | exact Hadd].
Qed.

(** On chunks none of which is blank, [add_document_chunks] raises
    only what a library raised: the lengths agree, and the embedding
    of the chunks has a text to encode. *)
Lemma add_document_chunks_from_library (chunks : list str)
    (metadata_list : list metadata) (s : state) :
  length chunks = length metadata_list ->
  List.filter (fun text => truthy (strip text)) chunks = chunks ->
  from_library (fst (add_document_chunks chunks metadata_list s)).
Proof.
  intros Hlen Hvalid.
  rewrite (add_document_chunks_eq chunks metadata_list s Hlen).
  pose proof (_get_collection_from_library s) as Hget.
  destruct (_get_collection s) as [[e | collection] s1]; [exact Hget|].
  cbv zeta.
  destruct (CustomEmbeddingFunction chunks _) as [[e | embeddings] s2]
    eqn:Hembed.
  - apply CustomEmbeddingFunction_raises in Hembed
      as [(_ & Hne & Hblank) | (x & -> & _)]; [|exact I].
    rewrite Hvalid in Hblank. contradiction.
  - destruct (collection_add collection chunks metadata_list _ embeddings
                (world (snd s2))) as [[e | []] w2]; exact I.
Qed.

Lemma on_vector_db_service_from_library {A} (method : M state A)
    (p : process) :
  (forall s, from_library (fst (method s))) ->
  from_library (fst (on_vector_db_service method p)).
Proof.
  intros Hmethod. unfold on_vector_db_service.
  apply bind_from_library.
  - unfold get_vector_db_service.
    destruct (_vector_db_service p); [exact I|].
    apply bind_from_library.
    + unfold init. apply bind_from_library; [apply call_from_library|].
      intros [] p1. exact I.
    + intros service p1. exact I.
  - intros service p1. specialize (Hmethod (service, p1)).
    destruct (method (service, p1)) as [r [service' p2]]. exact Hmethod.
Qed.

(** The collection is obtained once: [_get_collection] stores the
    collection it returns, and from then on returns it and changes
    nothing; when it raises, no collection is stored. *)
Theorem collection_is_cached (s : state) :
  (forall collection s', _get_collection s = (inr collection, s') ->
     _collection (fst s') = Some collection /\
     _get_collection s' = (inr collection, s')) /\
  (forall e s', _get_collection s = (inl e, s') ->
     _collection (fst s) = None /\ _collection (fst s') = None).
Proof.
  unfold _get_collection at 1 3.
  destruct (_collection (fst s)) as [c0|] eqn:Hcached.
  - split; [|discriminate].
    intros collection s' Heq. injection Heq as <- <-.
    split; [exact Hcached|]. unfold _get_collection. now rewrite Hcached.
  - split.
    + intros collection s' Hrun.
      apply bind_inr in Hrun as (client & s1 & _ & Hrun).
      apply bind_inr in Hrun as (service & s2 & _ & Hrun).
      apply bind_inr in Hrun as (c & s3 & _ & Hrun).
      apply bind_inr in Hrun as ([] & s4 & Hset & Hrun).
      injection Hrun as <- <-.
      assert (_collection (fst s4) = Some c) as Hstored.
      { destruct s3 as [self p]. injection Hset as <-. reflexivity. }
      split; [exact Hstored|]. unfold _get_collection. now rewrite Hstored.
    + intros e s' Hrun. split; [reflexivity|].
      apply bind_inl in Hrun as [Hclient | (client & s1 & Hclient & Hrun)].
      { apply _get_client_keeps_collection in Hclient. congruence. }
      apply _get_client_keeps_collection in Hclient.
      apply bind_inl in Hrun as [Hsvc | (service & s2 & Hsvc & Hrun)].
      { apply get_embedding_service_keeps_self in Hsvc. congruence. }
      apply get_embedding_service_keeps_self in Hsvc.
      apply bind_inl in Hrun as [Hget | (c & s3 & _ & Hrun)].
      { apply get_or_create_keeps_self in Hget. congruence. }
      apply bind_inl in Hrun as [Hset | ([] & s4 & _ & Hret)];
        [|discriminate].
      destruct s3 as [self p]. discriminate.
Qed.

(** The service of the process is made once: [get_vector_db_service]
    stores the service it returns, and from then on returns it
    without making the directory again; when making the directory
    raises, no service is stored.  [get_embedding_service] never
    raises, calls no library, and stores the service it returns. *)
Theorem services_are_made_once :
  (forall p service p', get_vector_db_service p = (inr service, p') ->
     _vector_db_service p' = Some service /\
     get_vector_db_service p' = (inr service, p')) /\
  (forall p e p', get_vector_db_service p = (inl e, p') ->
     _vector_db_service p = None /\ _vector_db_service p' = None) /\
  (forall s, exists service s',
     get_embedding_service s = (inr service, s') /\
     _embedding_service (snd s') = Some service /\
     world (snd s') = world (snd s) /\
     get_embedding_service s' = (inr service, s')).
Proof.
  split; [|split].
  - intros p service p'. unfold get_vector_db_service at 1.
    destruct (_vector_db_service p) as [service0|] eqn:Hmade.
    + intros Heq. injection Heq as <- <-. split; [exact Hmade|].
      unfold get_vector_db_service. now rewrite Hmade.
    + unfold init, bind, call.
      destruct (makedirs "./data/chroma_db" (world p)) as [[e | []] w];
        [discriminate|].
      intros Heq. injection Heq as <- <-. split; reflexivity.
  - intros p e p'. unfold get_vector_db_service.
    destruct (_vector_db_service p) as [service0|] eqn:Hmade;
      [discriminate|].
    unfold init, bind, call.
    destruct (makedirs "./data/chroma_db" (world p)) as [[e0 | []] w];
      [|discriminate].
    intros Heq. injection Heq as _ <-. split; [reflexivity | exact Hmade].
  - intros [self p]. unfold get_embedding_service at 1.
    destruct (_embedding_service p) as [service|] eqn:Hmade.
    + exists service, (self, p).
      repeat split; try assumption.
      unfold get_embedding_service. now rewrite Hmade.
    + eexists _, _. split; [reflexivity|]. repeat split.
Qed.

End Service.

(** In a new process the service is made, and a new service gets its
    collection from the client; both are answered again afterwards. *)
Lemma collection_is_cached_witness :
  @_get_collection TestEnv.env MoreInputs.ingested_state
  = (inr tt, MoreInputs.ingested_state) /\
  @_collection TestEnv.env
    (fst (snd (@_get_collection TestEnv.env
                 (MoreInputs.new_vector_service, TestEnv.fresh_process))))
  = Some tt.
Proof.
  split; [reflexivity|].
  apply (proj1 (@collection_is_cached TestEnv.env
                  (MoreInputs.new_vector_service, TestEnv.fresh_process))
           tt).
  reflexivity.
Defined.

Lemma services_are_made_once_witness :
  @get_vector_db_service TestEnv.env
    (snd (@get_vector_db_service TestEnv.env TestEnv.fresh_process))
  = (inr MoreInputs.new_vector_service,
     snd (@get_vector_db_service TestEnv.env TestEnv.fresh_process)).
Proof.
  apply (proj1 (@services_are_made_once TestEnv.env) TestEnv.fresh_process
           MoreInputs.new_vector_service).
  reflexivity.
Defined.

End VectorDBMore.

(* ===================================================================== *)
(** ** More facts about ingestion *)
(* ===================================================================== *)

Module IngestionMore.
Import PyStr PyStrFacts Py Chunker ChunkerFacts ChunkerProps.
Import Ingestion IngestionProps StripFacts ChunkerSpec IngestionSpec.

Section Service.
Context `{Env}.

Abbreviation process := VectorDB.process.

Lemma extract_text_from_pdf_eq (path : string) (p : process) :
  extract_text_from_pdf path p =
  match extract_text path (VectorDB.world p) with
  | (inl e, w) => (inl (Raised e), VectorDB.set_world w p)
  | (inr text, w) =>
      (inr (if truthy (strip text) then text else []),
       VectorDB.set_world w p)
  end.
Proof.
  unfold extract_text_from_pdf, bind, lib, call.
  destruct (extract_text path (VectorDB.world p)) as [[e | text] w];
    [reflexivity|].
  destruct (truthy (strip text)); reflexivity.
Qed.

Lemma _calculate_file_hash_eq (path : string) (p : process) :
  _calculate_file_hash path p =
  match sha256_hexdigest path (VectorDB.world p) with
  | (inr file_hash, w) => (inr file_hash, VectorDB.set_world w p)
  | (inl _, w) => (inr "unknown", VectorDB.set_world w p)
  end.
Proof.
  unfold _calculate_file_hash, try_except, lib, call.
  destruct (sha256_hexdigest path (VectorDB.world p)) as [[e | h] w];
    reflexivity.
Qed.

Lemma strip_nil_iff_blank (text : str) :
  strip text <> [] -> exists c text', text = c :: text'.
Proof. destruct text as [|c text']; [intros Hne; now elim Hne | eauto]. Qed.

(** An ingestion that cannot read the document, or reads only white
    space, ends there: the exception of the reader is raised again,
    or the empty list is returned, and nothing but the reading has
    happened: no hash is taken, and the services of the process are
    not made or touched. *)
Theorem ingest_datasheet_stops_early (self : DatasheetIngestionService)
    (path : string) (info : metadata) (p : process) :
  (forall e w, extract_text path (VectorDB.world p) = (inl e, w) ->
     ingest_datasheet self path info p
     = Some (inl (Raised e), VectorDB.set_world w p)) /\
  (forall text w, extract_text path (VectorDB.world p) = (inr text, w) ->
     strip text = [] ->
     ingest_datasheet self path info p
     = Some (inr [], VectorDB.set_world w p)).
Proof.
  unfold ingest_datasheet. rewrite extract_text_from_pdf_eq. split.
  - intros e w ->. reflexivity.
  - intros text w -> ->. reflexivity.
Qed.

(** Storing chunks none of which is blank raises only what a
    library raised. *)
Lemma store_chunks_from_library (chunks : list (str * metadata))
    (p : process) :
  List.filter (fun t => truthy (strip t)) (List.map fst chunks)
  = List.map fst chunks ->
  from_library (fst (store_chunks chunks p)).
Proof.
  intros Hvalid.
  destruct chunks as [|c chunks]; [exact I|]. unfold store_chunks.
  apply VectorDBMore.on_vector_db_service_from_library. intros s.
  apply VectorDBMore.add_document_chunks_from_library;
    [now rewrite !length_map | exact Hvalid].
Qed.

(** What [ingest_datasheet] does with a text that is not blank. *)
Lemma ingest_datasheet_nonblank (self : DatasheetIngestionService)
    (path : string) (info : metadata) (p : process) (text : str)
    (w : World) :
  extract_text path (VectorDB.world p) = (inr text, w) ->
  strip text <> [] ->
  ingest_datasheet self path info p =
  match sha256_hexdigest path w with
  | (r, w') =>
      match create_text_chunks self (clean_text text)
              (source_metadata_of path info
                 (match r with inr file_hash => file_hash
                             | inl _ => "unknown" end)) with
      | None => None
      | Some chunks =>
          Some (store_chunks chunks
                  (VectorDB.set_world w' (VectorDB.set_world w p)))
      end
  end.
Proof.
  intros Hread Hnonblank. unfold ingest_datasheet.
  rewrite extract_text_from_pdf_eq, Hread.
  destruct (truthy (strip text)) eqn:Htruthy;
    [|destruct (strip text); [contradiction | discriminate]].
  destruct text as [|c text]; [now elim Hnonblank|].
  rewrite _calculate_file_hash_eq. simpl VectorDB.world.
  destruct (sha256_hexdigest path w) as [[e | file_hash] w']; reflexivity.
Qed.

(** With the settings of [__init__], [ingest_datasheet] raises
    nothing of the services' own: what it raises, a library raised.
    The length test of [add_document_chunks] does not fail under it,
    and the embedding of the chunks does not raise [AllInputsEmpty],
    because no chunk is blank. *)
Theorem ingest_datasheet_raises_only_library_errors
    (path : string) (info : metadata) (p p' : process)
    (r : error + list string) :
  ingest_datasheet init path info p = Some (r, p') -> from_library r.
Proof.
  destruct (extract_text path (VectorDB.world p)) as [[e | text] w]
    eqn:Hread.
  - unfold ingest_datasheet. rewrite extract_text_from_pdf_eq, Hread.
    intros Heq. injection Heq as <- _. exact I.
  - destruct (strip text) as [|c rest] eqn:Hstrip.
    + unfold ingest_datasheet.
      rewrite extract_text_from_pdf_eq, Hread, Hstrip.
      intros Heq. injection Heq as <- _. exact I.
    + rewrite (ingest_datasheet_nonblank init path info p text w Hread)
        by (rewrite Hstrip; discriminate).
      destruct (sha256_hexdigest path w) as [r0 w'].
      destruct (create_text_chunks _ _ _) as [chunks|] eqn:Hchunks;
        [|discriminate].
      intros Heq. injection Heq as Heq.
      pose proof (store_chunks_from_library chunks
                    (VectorDB.set_world w' (VectorDB.set_world w p))
                    (ChunkerMore.chunk_texts_pass_the_filter _ _ _ Hchunks))
        as Hlib.
      rewrite Heq in Hlib. exact Hlib.
Qed.

(** An ingestion that returns has stored the chunks of the cleaned
    text: it returns one id per chunk, and these ids went to
    [collection.add] with the texts and the metadata of the chunks,
    and with the embeddings that the function bound to the collection
    gave for the texts, in the collection the service of the process
    now holds.  The hash in
    the metadata is the digest of the file, or ["unknown"] when taking
    it raised.  When the cleaned text gives no chunk, the services of
    the process are not made or touched. *)
Theorem ingest_datasheet_stores_its_chunks
    (self : DatasheetIngestionService) (path : string) (info : metadata)
    (p p' : process) (text : str) (w : World) (doc_ids : list string) :
  extract_text path (VectorDB.world p) = (inr text, w) ->
  strip text <> [] ->
  ingest_datasheet self path info p = Some (inr doc_ids, p') ->
  exists file_hash chunks,
    file_hash = match fst (sha256_hexdigest path w) with
                | inr digest => digest
                | inl _ => "unknown"
                end /\
    create_text_chunks self (clean_text text)
      (source_metadata_of path info file_hash) = Some chunks /\
    length doc_ids = length chunks /\
    (chunks = [] ->
       VectorDB._vector_db_service p' = VectorDB._vector_db_service p /\
       VectorDB._embedding_service p' = VectorDB._embedding_service p) /\
    (chunks <> [] ->
       exists service collection embeddings s1 s2,
         VectorDB._vector_db_service p' = Some service /\
         VectorDB._collection service = Some collection /\
         VectorDB.CustomEmbeddingFunction (List.map fst chunks) s1
         = (inr embeddings, s2) /\
         collection_add collection (List.map fst chunks)
           (List.map snd chunks) doc_ids embeddings
           (VectorDB.world (snd s2))
         = (inr tt, VectorDB.world p')).
Proof.
  intros Hread Hnonblank.
  rewrite (ingest_datasheet_nonblank self path info p text w Hread Hnonblank).
  destruct (sha256_hexdigest path w) as [r0 w']. simpl fst.
  set (file_hash := match r0 with inr digest => digest | inl _ => "unknown" end).
  destruct (create_text_chunks self (clean_text text)
              (source_metadata_of path info file_hash)) as [chunks|] eqn:Hchunks;
    [|discriminate].
  intros Heq. injection Heq as Hstore.
  exists file_hash, chunks. split; [reflexivity|]. split; [exact Hchunks|].
  clear Hchunks.
  destruct chunks as [|c chunks].
  - injection Hstore as <- <-. split; [reflexivity|].
    split; [intros _; split; reflexivity | intros Hne; now elim Hne].
  - unfold store_chunks, VectorDB.on_vector_db_service in Hstore.
    apply VectorDBMore.bind_inr in Hstore as (service & p3 & _ & Hstore).
    destruct (VectorDB.add_document_chunks _ _ (service, p3))
      as [r [service' p4]] eqn:Hadd.
    injection Hstore as -> <-.
    apply VectorDBMore.add_document_chunks_inr in Hadd
      as (Hlen & collection & embeddings & s1 & s2 & Hcoll & Hembed
          & Hstored).
    rewrite length_map in Hlen. split; [exact Hlen|].
    split; [discriminate|]. intros _.
    exists service', collection, embeddings, s1, s2.
    split; [reflexivity|]. split; [exact Hcoll|].
    split; [exact Hembed | exact Hstored].
Qed.

Lemma clean_text_strip (text : str) : strip (clean_text text) = clean_text text.
Proof. unfold clean_text. apply strip_idempotent. Qed.

(** The cleaned text has no white space at either end, whatever the
    substitutions do; so a document whose cleaned text is shorter
    than [min_chunk_size] = 1000 and not empty makes one chunk, the
    whole cleaned text. *)
Theorem short_document_is_one_chunk (text : str) (md : metadata) :
  clean_text text <> [] -> len (clean_text text) < 1000 ->
  no_leading_space (clean_text text) /\
  no_trailing_space (clean_text text) /\
  create_text_chunks init (clean_text text) md
  = Some [(clean_text text,
           chunk_metadata md 0 0 (len (clean_text text))
             (len (clean_text text)) (len (clean_text text)))].
Proof.
  intros Hne Hshort.
  split; [unfold clean_text; apply strip_no_leading_space|].
  split; [unfold clean_text; apply strip_no_trailing_space|].
  apply ChunkerMore.one_chunk_of_short_text;
    [exact Hne | exact Hshort | apply clean_text_strip].
Qed.

Lemma dict_get_default (d : metadata) (key : string) (v : py_value) :
  dict_get d key v = default v (d !! key).
Proof. unfold dict_get. destruct (d !! key); reflexivity. Qed.

(** Every chunk of a datasheet carries the provenance of the
    datasheet: the name and the path of the file, its hash, and the
    six fields of [component_info], each with its default when
    [component_info] lacks it; [component_info["timestamp"]] is
    stored as [ingestion_timestamp].  With the five keys of the chunk
    these are all the keys: no other entry of [component_info] is
    copied. *)
Theorem chunks_carry_provenance (self : DatasheetIngestionService)
    (text : str) (path : string) (info : metadata) (file_hash : string)
    (chunks : list (str * metadata)) (c : str * metadata) :
  create_text_chunks self text (source_metadata_of path info file_hash)
  = Some chunks ->
  c ∈ chunks ->
  snd c !! "source_file" = Some (VStr (basename path)) /\
  snd c !! "source_path" = Some (VStr path) /\
  snd c !! "file_hash" = Some (VStr file_hash) /\
  snd c !! "mpn" = Some (default (VStr "unknown") (info !! "mpn")) /\
  snd c !! "manufacturer"
  = Some (default (VStr "unknown") (info !! "manufacturer")) /\
  snd c !! "category" = Some (default (VStr "unknown") (info !! "category")) /\
  snd c !! "description" = Some (default (VStr "") (info !! "description")) /\
  snd c !! "datasheet_url"
  = Some (default (VStr "") (info !! "datasheet_url")) /\
  snd c !! "ingestion_timestamp"
  = Some (default (VStr "") (info !! "timestamp")) /\
  dom (snd c) = list_to_set (chunk_keys ++ source_keys).
Proof.
  intros Hrun Hc.
  assert (forall key, key ∈ source_keys ->
            snd c !! key = source_metadata_of path info file_hash !! key)
    as Hsource.
  { intros key Hkey.
    apply (ChunkerMore.chunk_lookup_source self text _ chunks c key Hrun Hc).
    unfold source_keys in Hkey. unfold chunk_keys.
    rewrite !elem_of_cons, elem_of_nil in Hkey.
    rewrite !not_elem_of_cons.
    repeat (destruct Hkey as [-> | Hkey];
            [repeat split; (discriminate || apply not_elem_of_nil)|]).
    contradiction. }
  unfold source_keys in Hsource.
  repeat (split;
    [rewrite Hsource
       by (rewrite !elem_of_cons; repeat ((now left) || right));
     unfold source_metadata_of; rewrite <- ?dict_get_default;
     repeat (rewrite lookup_insert_eq; reflexivity) ||
            (rewrite lookup_insert_ne by discriminate);
     try reflexivity|]).
  rewrite (ChunkerMore.chunk_dom self text _ chunks c Hrun Hc).
  unfold source_metadata_of, chunk_keys, source_keys.
  rewrite !dom_insert_L, dom_empty_L. simpl.
  rewrite !(right_id_L ∅ (∪)). rewrite <- !(assoc_L (∪)). reflexivity.
Qed.

End Service.

(** The first document that is opened cannot be read. *)
Lemma ingest_datasheet_stops_early_witness :
  @ingest_datasheet TestEnv.env init "a.pdf" ∅ TestEnv.fresh_process
  = Some (inl (@Raised TestEnv.env "cannot read"),
          MoreInputs.second_process).
Proof.
  apply (proj1 (@ingest_datasheet_stops_early TestEnv.env init "a.pdf" ∅
                  TestEnv.fresh_process)).
  reflexivity.
Defined.

Lemma ingest_datasheet_raises_only_library_errors_witness :
  @ingest_datasheet TestEnv.env init "a.pdf" ∅ TestEnv.fresh_process
  = Some (inl (@Raised TestEnv.env "cannot read"),
          MoreInputs.second_process) /\
  from_library
    (@inl (@error TestEnv.env) (list string)
       (@Raised TestEnv.env "cannot read")).
Proof.
  split; [reflexivity|].
  apply (@ingest_datasheet_raises_only_library_errors TestEnv.env
           "a.pdf" ∅ TestEnv.fresh_process MoreInputs.second_process).
  reflexivity.
Defined.

(** The second document reads ["Hi."], which makes one chunk. *)
Lemma ingest_datasheet_stores_its_chunks_witness :
  exists file_hash chunks,
    file_hash = "00" /\
    create_text_chunks init (@clean_text TestEnv.env Inputs.greeting)
      (@source_metadata_of TestEnv.env "a.pdf" ∅ file_hash) = Some chunks /\
    length ["u0"] = length chunks.
Proof.
  destruct (@ingest_datasheet_stores_its_chunks TestEnv.env init "a.pdf" ∅
              MoreInputs.second_process MoreInputs.ingested_process
              Inputs.greeting
              {| TestEnv.opened := 2; TestEnv.handed_out := 0;
                 TestEnv.stored := [] |}
              ["u0"])
    as (file_hash & chunks & Hhash & Hchunks & Hlen & _).
  - reflexivity.
  - discriminate.
  - vm_compute. reflexivity.
  - exists file_hash, chunks. split; [exact Hhash|].
    split; [exact Hchunks | exact Hlen].
Defined.

Lemma short_document_is_one_chunk_witness :
  create_text_chunks init (@clean_text TestEnv.env Inputs.greeting) ∅
  = Some [(@clean_text TestEnv.env Inputs.greeting,
           chunk_metadata ∅ 0 0 3 3 3)].
Proof.
  apply (@short_document_is_one_chunk TestEnv.env Inputs.greeting ∅);
    [discriminate | reflexivity].
Defined.

Lemma a_pdf_chunks :
  create_text_chunks init Inputs.greeting MoreInputs.a_pdf_metadata
  = Some [MoreInputs.a_pdf_chunk].
Proof. reflexivity. Qed.

Lemma chunks_carry_provenance_witness :
  snd MoreInputs.a_pdf_chunk !! "source_file" = Some (VStr "a.pdf") /\
  snd MoreInputs.a_pdf_chunk !! "mpn" = Some (VStr "unknown") /\
  snd MoreInputs.a_pdf_chunk !! "ingestion_timestamp" = Some (VStr "").
Proof.
  destruct (@chunks_carry_provenance TestEnv.env init Inputs.greeting "a.pdf"
              ∅ "00" [MoreInputs.a_pdf_chunk] MoreInputs.a_pdf_chunk
              a_pdf_chunks)
    as (Hfile & _ & _ & Hmpn & _ & _ & _ & _ & Hstamp & _).
  - apply list_elem_of_singleton. reflexivity.
  - split; [exact Hfile|]. split; [exact Hmpn | exact Hstamp].
Defined.

End IngestionMore.

(* ===================================================================== *)
(** ** More facts about the threads that call [_get_model] *)
(* ===================================================================== *)

Module LazyInitMore.
Import LazyInit LazyInitProps LazyInitSpec.

Section Threads.
Context `{Env}.

(** What a step of thread [i] does to the list of threads and to the
    lock: thread [i] moves on, to a place with less before it; it
    takes the lock, or leaves the block and frees the lock, or leaves
    the lock alone and stays inside or outside the block. *)
Lemma step_thread_threads (i : nat) (s s' : system) :
  step_thread i s = Some s' ->
  exists c c',
    threads s !! i = Some c /\ threads s' = <[i := c']> (threads s) /\
    (remaining c' < remaining c)%nat /\
    ((inside c' /\ _lock s' = Some i) \/
     (_lock s' = None /\ inside c) \/
     (_lock s' = _lock s /\ (inside c <-> inside c'))).
Proof.
  unfold step_thread. destruct (threads s !! i) as [c|]; [|discriminate].
  destruct c; try discriminate.
  - intros Heq. injection Heq as <-.
    exists AtTest, (match _model s with None => AtAcquire | _ => AtReturn end).
    split; [reflexivity|]. split; [reflexivity|].
    destruct (_model s); simpl; (split; [lia | right; right; tauto]).
  - destruct (_lock s) eqn:Hlock; [discriminate|].
    intros Heq. injection Heq as <-. exists AtAcquire, AtTestLocked.
    split; [reflexivity|]. split; [reflexivity|].
    simpl. split; [lia | left; tauto].
  - intros Heq. injection Heq as <-.
    exists AtTestLocked,
      (match _model s with None => AtConstruct | _ => AtRelease end).
    split; [reflexivity|]. split; [reflexivity|].
    destruct (_model s); simpl; (split; [lia | right; right; tauto]).
  - destruct (new_SentenceTransformer (model_name s) (world s))
      as [[e | model] w]; intros Heq; injection Heq as <-.
    + exists AtConstruct, (AtReleaseRaising e).
      split; [reflexivity|]. split; [reflexivity|].
      simpl. split; [lia | right; right; tauto].
    + exists AtConstruct, (AtAssign model).
      split; [reflexivity|]. split; [reflexivity|].
      simpl. split; [lia | right; right; tauto].
  - intros Heq. injection Heq as <-. exists (AtAssign model), AtRelease.
    split; [reflexivity|]. split; [reflexivity|].
    simpl. split; [lia | right; right; tauto].
  - intros Heq. injection Heq as <-. exists AtRelease, AtReturn.
    split; [reflexivity|]. split; [reflexivity|].
    simpl. split; [lia | right; left; tauto].
  - intros Heq. injection Heq as <-. exists (AtReleaseRaising e), (Failed e).
    split; [reflexivity|]. split; [reflexivity|].
    simpl. split; [lia | right; left; tauto].
  - intros Heq. injection Heq as <-. exists AtReturn, (Returned (_model s)).
    split; [reflexivity|]. split; [reflexivity|].
    simpl. split; [lia | right; right; tauto].
Qed.

Lemma sum_list_insert (l : list pc) (i : nat) (c c' : pc) :
  l !! i = Some c ->
  (sum_list (remaining <$> <[i := c']> l) + remaining c
   = sum_list (remaining <$> l) + remaining c')%nat.
Proof.
  revert i. induction l as [|c0 l IH]; intros [|i] Hi; try discriminate.
  - injection Hi as ->.
    change (<[0%nat := c']> (c :: l)) with (c' :: l).
    rewrite !fmap_cons. cbn [sum_list_with id]. lia.
  - specialize (IH i Hi).
    change (<[S i := c']> (c0 :: l)) with (c0 :: <[i := c']> l).
    rewrite !fmap_cons. cbn [sum_list_with id]. lia.
Qed.

Lemma step_thread_work (i : nat) (s s' : system) :
  step_thread i s = Some s' -> (work s' < work s)%nat.
Proof.
  intros Hstep.
  destruct (step_thread_threads i s s' Hstep)
    as (c & c' & Hi & Hthreads & Hlt & _).
  unfold work. rewrite Hthreads.
  pose proof (sum_list_insert (threads s) i c c' Hi). lia.
Qed.

(** A thread inside the [with] block has a step to take. *)
Lemma inside_steps (i : nat) (s : system) (c : pc) :
  threads s !! i = Some c -> inside c -> exists s', step_thread i s = Some s'.
Proof.
  intros Hi Hin. unfold step_thread. rewrite Hi.
  destruct c; try contradiction; eauto.
  destruct (new_SentenceTransformer (model_name s) (world s))
    as [[e | model] w]; eauto.
Qed.

(** The lock names a thread, and that thread is inside the block. *)
Lemma lock_names_a_thread (name : string) (n : nat) (w : World)
    (s : system) (i : nat) :
  reachable name n w s -> _lock s = Some i ->
  exists c, threads s !! i = Some c /\ inside c.
Proof.
  intros Hreach. revert i. unfold reachable in Hreach.
  refine (rtc_ind_r
            (fun s => forall i, _lock s = Some i ->
               exists c, threads s !! i = Some c /\ inside c)
            (initial name n w) _ _ s Hreach); [discriminate|].
  intros s1 s2 _ [j Hstep] IH i Hlock.
  destruct (step_thread_threads j s1 s2 Hstep)
    as (c & c' & Hj & Hthreads & _ & Hcases).
  assert (j < length (threads s1))%nat as Hlen
    by (eapply lookup_lt_Some; exact Hj).
  rewrite Hthreads.
  destruct Hcases as [[Hc' Htaken] | [[Hfree _] | [Hsame Hiff]]].
  - rewrite Htaken in Hlock. injection Hlock as <-.
    exists c'. split; [|exact Hc']. now apply list_lookup_insert_eq.
  - rewrite Hfree in Hlock. discriminate.
  - rewrite Hsame in Hlock. destruct (IH i Hlock) as (ci & Hi & Hci).
    destruct (Nat.eq_dec j i) as [-> | Hne].
    + rewrite Hj in Hi. injection Hi as ->.
      exists c'. split; [|now apply Hiff].
      now apply list_lookup_insert_eq.
    + exists ci. split; [|exact Hci].
      rewrite list_lookup_insert_ne by exact Hne. exact Hi.
Qed.

Lemma reachable_step (name : string) (n : nat) (w : World)
    (s s' : system) :
  reachable name n w s -> rtc step s s' -> reachable name n w s'.
Proof. unfold reachable. intros H1 H2. etrans; eassumption. Qed.

Lemma work_initial (name : string) (n : nat) (w : World) :
  work (initial name n w) = (7 * n)%nat.
Proof.
  unfold work, initial. cbn [threads].
  induction n as [|n IH]; [reflexivity|].
  change (replicate (S n) AtTest) with (AtTest :: replicate n AtTest).
  rewrite fmap_cons. cbn [sum_list_with id remaining]. rewrite IH. lia.
Qed.

(** The threads run to the end: every step uses up some of the at
    most seven steps each thread has, so a run has at most [7 * n]
    steps; as long as a thread has not finished, some thread has a
    step to take (a thread waits for the lock only while another one
    is inside the block, and that one can move); and when all have
    finished, the lock is free, also after the constructor raised. *)
Theorem threads_run_to_the_end (name : string) (n : nat) (w : World)
    (s : system) :
  reachable name n w s ->
  (work s <= 7 * n)%nat /\
  (forall s', step s s' -> (work s' < work s)%nat) /\
  ((exists i c, threads s !! i = Some c /\ ~ finished c) ->
   exists s', step s s') /\
  ((forall i c, threads s !! i = Some c -> finished c) -> _lock s = None).
Proof.
  intros Hreach. split; [|split; [|split]].
  - unfold reachable in Hreach.
    refine (rtc_ind_r (fun s => (work s <= 7 * n)%nat)
              (initial name n w) _ _ s Hreach).
    + rewrite work_initial. lia.
    + intros s1 s2 _ [i Hstep] IH.
      pose proof (step_thread_work i s1 s2 Hstep). lia.
  - intros s' [i Hstep]. exact (step_thread_work i s s' Hstep).
  - intros (i & c & Hi & Hc).
    assert (Decision (inside c)) as [Hin | Hout]
      by (destruct c; simpl; (now left) || (now right)).
    { destruct (inside_steps i s c Hi Hin) as [s' Hstep].
      exists s', i. exact Hstep. }
    destruct c; simpl in Hc, Hout; try tauto.
    + eexists. exists i. unfold step_thread. rewrite Hi. reflexivity.
    + destruct (_lock s) as [k|] eqn:Hlock.
      * destruct (lock_names_a_thread name n w s k Hreach Hlock)
          as (ck & Hk & Hck).
        destruct (inside_steps k s ck Hk Hck) as [s' Hstep].
        exists s', k. exact Hstep.
      * eexists. exists i. unfold step_thread. rewrite Hi, Hlock.
        reflexivity.
    + eexists. exists i. unfold step_thread. rewrite Hi. reflexivity.
  - intros Hall. destruct (_lock s) as [k|] eqn:Hlock; [|reflexivity].
    destruct (lock_names_a_thread name n w s k Hreach Hlock)
      as (ck & Hk & Hck).
    specialize (Hall k ck Hk). destruct ck; contradiction.
Qed.

(** A model that was assigned stays: no later step of any thread
    changes [self._model]. *)
Theorem model_is_never_replaced (name : string) (n : nat) (w : World)
    (s s' : system) (model : SentenceTransformer) :
  reachable name n w s -> _model s = Some model -> rtc step s s' ->
  _model s' = Some model.
Proof.
  intros Hreach Hmodel Hrun.
  cut (rtc step s s' /\ _model s' = Some model); [intros [_ H0]; exact H0|].
  refine (rtc_ind_r
            (fun s' => rtc step s s' /\ _model s' = Some model) s _ _ s' Hrun).
  - split; [apply rtc_refl | exact Hmodel].
  - intros s1 s2 _ [i Hstep] [Hs1 IH].
    split; [eapply rtc_r; [exact Hs1 | exists i; exact Hstep]|].
    pose proof (reachable_invariant name n w s1
                  (reachable_step name n w s s1 Hreach Hs1)) as Hinv.
    destruct (inv_set s1 Hinv model IH) as [_ Hall].
    unfold step_thread in Hstep.
    destruct (threads s1 !! i) as [c|] eqn:Hi; [|discriminate].
    destruct (Hall i c Hi) as (Hno & Has & _).
    destruct c; try discriminate;
      try (injection Hstep as <-; exact IH).
    + destruct (_lock s1); [discriminate|]. injection Hstep as <-. exact IH.
    + contradiction.
    + exfalso. apply Has. exact I.
Qed.

End Threads.

(** The first thread has assigned the model and holds the lock, the
    second waits for it: the first can move. *)
Lemma threads_run_to_the_end_witness :
  exists s', @step TestEnv.env MoreInputs.model_assigned s'.
Proof.
  destruct (@threads_run_to_the_end TestEnv.env "m" 2 TestEnv.start
              MoreInputs.model_assigned) as (_ & _ & Hgo & _).
  - apply (@run_schedule_rtc TestEnv.env [0; 1; 0; 0; 0; 0]%nat).
    vm_compute. reflexivity.
  - apply Hgo. exists 1%nat, (@AtAcquire TestEnv.env).
    split; [reflexivity | simpl; tauto].
Defined.

Lemma model_is_never_replaced_witness :
  @_model TestEnv.env TestEnv.both_returned = Some "m".
Proof.
  apply (@model_is_never_replaced TestEnv.env "m" 2 TestEnv.start
           MoreInputs.model_assigned TestEnv.both_returned "m").
  - apply (@run_schedule_rtc TestEnv.env [0; 1; 0; 0; 0; 0]%nat).
    vm_compute. reflexivity.
  - reflexivity.
  - apply (@run_schedule_rtc TestEnv.env [0; 1; 1; 1; 0; 1]%nat).
    vm_compute. reflexivity.
Defined.

End LazyInitMore.

(* ===================================================================== *)
(** ** Facts about queries, statistics and deletion *)
(* ===================================================================== *)

Module QueriesProps.
Import PyStr Py VectorDB VectorDBProps VectorDBMore Queries.

Section Service.
Context `{Chroma}.

Lemma _get_client_inr (s s' : state) (client : Client) :
  _get_client s = (inr client, s') ->
  _client (fst s') = Some client /\
  _collection (fst s') = _collection (fst s) /\
  collection_name (fst s') = collection_name (fst s).
Proof.
  destruct s as [self p]. unfold _get_client.
  destruct (_client self) as [client0|] eqn:Hclient.
  - intros Heq. injection Heq as <- <-. repeat split. exact Hclient.
  - destruct (PersistentClient _ _) as [[e | client0] w]; [discriminate|].
    intros Heq. injection Heq as <- <-. repeat split.
Qed.




(** [get_collection_stats] raises when the collection cannot be
    obtained, and only then: once the collection is there, it
    returns the three statistics, or, when counting raises, the one
    entry ["error"] with the text of the exception. *)
Theorem get_collection_stats_outcome (s : state) :
  (forall e s', _get_collection s = (inl e, s') ->
     get_collection_stats s = (inl e, s')) /\
  (forall collection s1, _get_collection s = (inr collection, s1) ->
     exists stats s',
       get_collection_stats s = (inr stats, s') /\
       fst s' = fst s1 /\
       match fst (collection_count collection (world (snd s1))) with
       | inr count =>
           stats !! "total_documents" = Some (VInt count) /\
           stats !! "collection_name"
           = Some (VStr (collection_name (fst s1))) /\
           stats !! "persist_directory"
           = Some (VStr (persist_directory (fst s1))) /\
           stats !! "error" = None
       | inl e => stats = {["error" := VStr (exn_str e)]}
       end).
Proof.
  unfold get_collection_stats, bind. split.
  - intros e s' ->. reflexivity.
  - intros collection s1 ->. unfold try_except, VectorDB.lib, call.
    destruct (collection_count collection (world (snd s1)))
      as [[e | count] w]; simpl; eexists _, _;
      (split; [reflexivity|]); (split; [reflexivity|]); [reflexivity|].
    repeat split.
Qed.

(** A deletion that returns has forgotten the collection and kept
    the client: the next [_get_collection] asks that client for the
    collection again, by getting or by creating it.  A deletion that
    raises leaves the collection the service holds where it is. *)
Theorem delete_collection_forgets_the_collection (s : state) :
  (forall s', delete_collection s = (inr tt, s') ->
     _collection (fst s') = None /\
     exists client,
       _client (fst s') = Some client /\
       forall collection s'',
         _get_collection s' = (inr collection, s'') ->
         exists w w',
           client_get_collection client (collection_name (fst s)) w
           = (inr collection, w') \/
           client_create_collection client (collection_name (fst s)) w
           = (inr collection, w')) /\
  (forall e s', delete_collection s = (inl e, s') ->
     _collection (fst s') = _collection (fst s)).
Proof.
  unfold delete_collection. split.
  - intros s' Hrun.
    apply bind_inr in Hrun as (client & s1 & Hclient & Hrun).
    apply bind_inr in Hrun as ([] & s2 & Hdelete & Hclear).
    apply _get_client_inr in Hclient as (Hclient & _ & Hname).
    apply lib_keeps_self in Hdelete as [Hself _].
    destruct s2 as [self2 p2]. injection Hclear as <-.
    simpl in Hself. subst self2. simpl.
    split; [reflexivity|]. exists client. split; [exact Hclient|].
    intros collection s'' Hget. unfold _get_collection in Hget.
    simpl in Hget.
    apply bind_inr in Hget as (client' & s3 & Hclient' & Hget).
    unfold _get_client in Hclient'. simpl in Hclient'.
    rewrite Hclient in Hclient'. injection Hclient' as <- <-.
    apply bind_inr in Hget as (service & s4 & Hservice & Hget).
    apply get_embedding_service_keeps_self in Hservice.
    apply bind_inr in Hget as (c & s5 & Htry & Hget).
    apply bind_inr in Hget as ([] & s6 & _ & Hret).
    injection Hret as <- _.
    assert (collection_name (fst s4) = collection_name (fst s)) as Hname4
      by (rewrite Hservice; simpl; exact Hname).
    unfold try_except, VectorDB.lib, call in Htry. cbv beta in Htry.
    simpl fst in Htry. rewrite !Hname4 in Htry.
    destruct (client_get_collection client (collection_name (fst s))
                (world (snd s4))) as [[e | c0] w1] eqn:Hfirst.
    + destruct (client_create_collection client _ _)
        as [[e2 | c1] w2] eqn:Hsecond; [discriminate|].
      injection Htry as <- _. simpl in Hsecond. rewrite Hname4 in Hsecond.
      eexists _, _. right. exact Hsecond.
    + injection Htry as <- _. eexists _, _. left. exact Hfirst.
  - intros e s' Hrun.
    apply bind_inl in Hrun as [Hclient | (client & s1 & Hclient & Hrun)].
    { now apply _get_client_keeps_collection in Hclient. }
    apply _get_client_keeps_collection in Hclient.
    apply bind_inl in Hrun as [Hdelete | ([] & s2 & _ & Hclear)].
    + apply lib_keeps_self in Hdelete as [Hself _]. congruence.
    + destruct s2 as [self2 p2]. discriminate.
Qed.

End Service.


Lemma get_collection_stats_outcome_witness :
  exists stats s',
    @get_collection_stats TestEnv.env MoreInputs.chroma
      MoreInputs.ingested_state = (inr stats, s') /\
    stats !! "total_documents" = Some (VInt 1).
Proof.
  destruct (proj2 (@get_collection_stats_outcome TestEnv.env
                     MoreInputs.chroma MoreInputs.ingested_state)
              tt MoreInputs.ingested_state eq_refl)
    as (stats & s' & Hrun & _ & Hcount & _).
  exists stats, s'. split; [exact Hrun | exact Hcount].
Defined.

Lemma delete_collection_forgets_the_collection_witness :
  @_collection TestEnv.env
    (fst (snd (@delete_collection TestEnv.env MoreInputs.chroma
                 MoreInputs.ingested_state))) = None.
Proof.
  apply (proj1 (@delete_collection_forgets_the_collection TestEnv.env
                  MoreInputs.chroma MoreInputs.ingested_state)
           (snd (@delete_collection TestEnv.env MoreInputs.chroma
                   MoreInputs.ingested_state))).
  reflexivity.
Defined.

End QueriesProps.
